(** * ChatGPS: the realtime audio session of LiveChat and Transcriber

    A shallow embedding of [src/components/LiveChat.tsx] and of the
    Transcriber component, with the properties of their session lifecycle,
    transcript accumulation, playback scheduling and base64 wire format.

    Conventions.
    - A [Uint8Array] is a [list byte].  A JavaScript string that carries
      binary data or base64 text is a [string] of 8-bit characters: code
      units above 255 cannot be built by [String.fromCharCode] on a byte
      and make [atob] raise like any other character outside the alphabet.
      The names and texts of the forms are strings of the same type, and
      [trim] removes the white space of that range.
    - A function that can raise returns an [option]; [None] is the raised
      exception.
    - Times of the Web Audio clock, the playback cursor and the duration
      of a buffer are JavaScript numbers: binary64 floating-point values
      ([double]), added and divided with the rounding of IEEE 754.  The
      samples of a buffer are exact dyadic values and stay rationals ([Q]).
    - React state is a record; a state setter applied with an updater is
      the update of that record, in program order.  What a callback reads
      from the component scope is not the record but the value captured by
      the render that created the callback: captured values are explicit
      arguments ([Render], [Conversation]). *)

From Stdlib Require Import List String Ascii NArith ZArith Bool Arith Lia.
From Stdlib.Strings Require Import Byte.
From Stdlib Require Import QArith.
From Stdlib Require Import SpecFloat.
Import ListNotations.

Local Open Scope N_scope.

(** ** Platform functions: [btoa] and [atob] *)

Module Base64.

(** The base64 alphabet: the character of a 6-bit value. *)
Definition b64char (v : N) : ascii :=
  ascii_of_N
    (if v <? 26 then 65 + v
     else if v <? 52 then 71 + v
     else if v <? 62 then v - 4
     else if v =? 62 then 43
     else 47).

(** The 6-bit value of a character, [None] outside the alphabet. *)
Definition b64val (c : ascii) : option N :=
  let n := N_of_ascii c in
  if (65 <=? n) && (n <=? 90) then Some (n - 65)
  else if (97 <=? n) && (n <=? 122) then Some (n - 71)
  else if (48 <=? n) && (n <=? 57) then Some (n + 4)
  else if n =? 43 then Some 62
  else if n =? 47 then Some 63
  else None.

Definition pad : ascii := ascii_of_N 61.

(** The four 6-bit values of a group of three bytes. *)
Definition sextet1 (a : N) : N := a / 4.
Definition sextet2 (a b : N) : N := (a mod 4) * 16 + b / 16.
Definition sextet3 (b c : N) : N := (b mod 16) * 4 + c / 64.
Definition sextet4 (c : N) : N := c mod 64.

(** [btoa] on the characters of a binary string: three bytes give four
    characters, a rest of one or two bytes is padded with [=]. *)
Fixpoint btoa_chars (s : list ascii) : list ascii :=
  match s with
  | [] => []
  | [a] =>
      let a := N_of_ascii a in
      [b64char (sextet1 a); b64char (sextet2 a 0); pad; pad]
  | [a; b] =>
      let a := N_of_ascii a in
      let b := N_of_ascii b in
      [b64char (sextet1 a); b64char (sextet2 a b); b64char (sextet3 b 0); pad]
  | a :: b :: c :: rest =>
      let a := N_of_ascii a in
      let b := N_of_ascii b in
      let c := N_of_ascii c in
      b64char (sextet1 a) :: b64char (sextet2 a b)
        :: b64char (sextet3 b c) :: b64char (sextet4 c) :: btoa_chars rest
  end.

(** The 6-bit values that [btoa] writes and the padding it ends with. *)
Fixpoint btoa_sextets (s : list ascii) : list N :=
  match s with
  | [] => []
  | [a] =>
      let a := N_of_ascii a in
      [sextet1 a; sextet2 a 0]
  | [a; b] =>
      let a := N_of_ascii a in
      let b := N_of_ascii b in
      [sextet1 a; sextet2 a b; sextet3 b 0]
  | a :: b :: c :: rest =>
      let a := N_of_ascii a in
      let b := N_of_ascii b in
      let c := N_of_ascii c in
      sextet1 a :: sextet2 a b :: sextet3 b c :: sextet4 c :: btoa_sextets rest
  end.

Fixpoint btoa_padding (s : list ascii) : list ascii :=
  match s with
  | [] => []
  | [_] => [pad; pad]
  | [_; _] => [pad]
  | _ :: _ :: _ :: rest => btoa_padding rest
  end.

Definition btoa (s : string) : string :=
  string_of_list_ascii (btoa_chars (list_ascii_of_string s)).

(** ASCII whitespace: TAB, LF, FF, CR and SPACE. *)
Definition is_ascii_whitespace (c : ascii) : bool :=
  let n := N_of_ascii c in
  (n =? 9) || (n =? 10) || (n =? 12) || (n =? 13) || (n =? 32).

Definition is_pad (c : ascii) : bool := N_of_ascii c =? 61.

(** Removes one or two [=] from the end of the data. *)
Definition strip_padding (d : list ascii) : list ascii :=
  match rev_append d [] with
  | p :: q :: r =>
      if is_pad p then (if is_pad q then rev_append r [] else rev_append (q :: r) [])
      else d
  | [p] => if is_pad p then [] else d
  | [] => d
  end.

(** The 6-bit values of the data, [None] at a character outside the
    alphabet. *)
Fixpoint sextets (d : list ascii) : option (list N) :=
  match d with
  | [] => Some []
  | c :: r =>
      match b64val c, sextets r with
      | Some v, Some vs => Some (v :: vs)
      | _, _ => None
      end
  end.

(** The bytes of a run of 6-bit values: 24 bits give three bytes; of a last
    12 bits the low 4 are dropped, of a last 18 bits the low 2. *)
Fixpoint sextets_bytes (vs : list N) : list ascii :=
  match vs with
  | v1 :: v2 :: v3 :: v4 :: rest =>
      let n := ((v1 * 64 + v2) * 64 + v3) * 64 + v4 in
      ascii_of_N (n / 65536) :: ascii_of_N ((n / 256) mod 256)
        :: ascii_of_N (n mod 256) :: sextets_bytes rest
  | [v1; v2; v3] =>
      let n := ((v1 * 64 + v2) * 64 + v3) / 4 in
      [ascii_of_N (n / 256); ascii_of_N (n mod 256)]
  | [v1; v2] =>
      let n := (v1 * 64 + v2) / 16 in
      [ascii_of_N n]
  | _ => []
  end.

(** [atob], the forgiving base64 decoding of the HTML standard: whitespace
    is removed, a padded length of a multiple of four loses its padding, a
    length of 1 modulo 4 and a character outside the alphabet raise. *)
Definition atob_chars (data : list ascii) : option (list ascii) :=
  let d1 := filter (fun c => negb (is_ascii_whitespace c)) data in
  let d2 := if N.of_nat (List.length d1) mod 4 =? 0 then strip_padding d1 else d1 in
  if N.of_nat (List.length d2) mod 4 =? 1 then None
  else
    match sextets d2 with
    | Some vs => Some (sextets_bytes vs)
    | None => None
    end.

Definition atob (data : string) : option string :=
  match atob_chars (list_ascii_of_string data) with
  | Some out => Some (string_of_list_ascii out)
  | None => None
  end.

End Base64.

(** ** The helpers of LiveChat.tsx *)

(** [encode]: the loop appends [String.fromCharCode(bytes[i])] for each
    index, then [btoa] of the binary string. *)
Definition encode (bytes : list byte) : string :=
  let binary :=
    fold_left (fun acc b => (acc ++ String (ascii_of_byte b) EmptyString)%string)
              bytes EmptyString in
  Base64.btoa binary.

(** [decode]: [atob], then [bytes[i] = binaryString.charCodeAt(i)] for each
    index of a [Uint8Array] of the same length. *)
Definition decode (base64 : string) : option (list byte) :=
  match Base64.atob base64 with
  | Some binaryString => Some (map byte_of_ascii (list_ascii_of_string binaryString))
  | None => None
  end.

(** ** JavaScript numbers *)

(** A number is a binary64 value: precision 53, exponents below 1024. *)
Definition double := spec_float.

Definition dzero : double := S754_zero false.

(** [a + b] and [a / b], rounded to nearest, ties to even. *)
Definition dadd (a b : double) : double := SFadd 53 1024 a b.
Definition ddiv (a b : double) : double := SFdiv 53 1024 a b.

(** [a <= b] and [a == b]; both are false when an operand is [NaN]. *)
Definition dle (a b : double) : bool := SFleb a b.
Definition deq (a b : double) : bool := SFeqb a b.

(** The number of an integer, rounded when it has more than 53 bits. *)
Definition double_of_Z (z : Z) : double := binary_normalize 53 1024 z 0 false.

(** [Math.max(a, b)]: [NaN] when an argument is [NaN]; [+0] is larger than
    [-0]. *)
Definition Math_max (a b : double) : double :=
  match SFcompare a b with
  | None => S754_nan
  | Some Gt => a
  | Some Lt => b
  | Some Eq =>
      match a, b with
      | S754_zero true, S754_zero false => b
      | _, _ => a
      end
  end.

Definition is_nan (x : double) : bool :=
  match x with S754_nan => true | _ => false end.

(** A number that is not [NaN] and has its sign bit clear: [+0], a positive
    finite number or [+Infinity].  The clock of an audio context is one. *)
Definition non_negative (x : double) : Prop :=
  match x with
  | S754_zero false | S754_infinity false | S754_finite false _ _ => True
  | _ => False
  end.

(** The same number: the same value, or two values that [==] holds of (the
    two zeros). *)
Definition same_number (a b : double) : Prop := a = b \/ deq a b = true.

(** The place of a number in the order of [<=]: its class (from
    [-Infinity] to [+Infinity]), then exponent and mantissa, both negated
    for a negative number. *)
Definition order_class (x : double) : Z :=
  match x with
  | S754_infinity true => -2
  | S754_finite true _ _ => -1
  | S754_finite false _ _ => 1
  | S754_infinity false => 2
  | _ => 0
  end%Z.

Definition order_exponent (x : double) : Z :=
  match x with
  | S754_finite s _ e => if s then (- e)%Z else e
  | _ => 0%Z
  end.

Definition order_mantissa (x : double) : Z :=
  match x with
  | S754_finite s m _ => if s then Z.neg m else Z.pos m
  | _ => 0%Z
  end.

Definition lexlt (x y : double) : Prop :=
  (order_class x < order_class y \/
   (order_class x = order_class y /\
    (order_exponent x < order_exponent y \/
     (order_exponent x = order_exponent y /\ order_mantissa x < order_mantissa y))))%Z.

Definition lexeq (x y : double) : Prop :=
  order_class x = order_class y /\ order_exponent x = order_exponent y /\
  order_mantissa x = order_mantissa y.

(** ** Audio buffers *)

(** A decoded [AudioBuffer]: its channels of samples in [-1, 1), its length
    in frames and its sample rate. *)
Record AudioBuffer := {
  channels : list (list Q);
  frames : nat;
  sampleRate : positive
}.

(** [AudioBuffer.duration]: length over sample rate, in seconds, as a
    number. *)
Definition duration (b : AudioBuffer) : double :=
  ddiv (double_of_Z (Z.of_nat (frames b))) (double_of_Z (Z.pos (sampleRate b))).

(** A little-endian pair of bytes read as a signed 16-bit integer. *)
Definition int16_of_bytes (lo hi : byte) : Z :=
  let u := (Z.of_N (Byte.to_N lo) + 256 * Z.of_N (Byte.to_N hi))%Z in
  if (u <? 32768)%Z then u else (u - 65536)%Z.

(** [new Int16Array(data.buffer)]: a [RangeError] when the byte length is
    odd. *)
Fixpoint Int16Array (data : list byte) : option (list Z) :=
  match data with
  | [] => Some []
  | [_] => None
  | lo :: hi :: rest =>
      match Int16Array rest with
      | Some l => Some (int16_of_bytes lo hi :: l)
      | None => None
      end
  end.

(** [decodeAudioData]: [ctx.createBuffer] raises [NotSupportedError] on a
    length of zero frames (and on zero channels); sample [i] of a channel is
    [dataInt16[i * numChannels + channel] / 32768.0].  [rate] is a rate that
    the context supports: every implementation supports 8000 to 96000 Hz,
    and the program passes 24000. *)
Definition decodeAudioData (data : list byte) (rate : positive) (numChannels : nat)
  : option AudioBuffer :=
  match Int16Array data with
  | None => None
  | Some dataInt16 =>
      let frameCount := (List.length dataInt16 / numChannels)%nat in
      if (frameCount =? 0)%nat || (numChannels =? 0)%nat then None
      else
        Some {| channels :=
                  map (fun channel =>
                         map (fun i => nth (i * numChannels + channel)%nat dataInt16 0%Z # 32768)
                             (seq 0 frameCount))
                      (seq 0 numChannels);
                frames := frameCount;
                sampleRate := rate |}
  end.

(** ** Messages of the backend stream *)

Record Transcription := { text : option string }.
Record Blob := { data : option string; mimeType : option string }.
Record Part := { inlineData : option Blob }.
Record Content := { parts : list Part }.

Record LiveServerContent := {
  inputTranscription : option Transcription;
  outputTranscription : option Transcription;
  turnComplete : bool;
  modelTurn : option Content
}.

Record LiveServerMessage := { serverContent : option LiveServerContent }.

(** [message.serverContent?.modelTurn?.parts[0]?.inlineData?.data] *)
Definition base64Audio (message : LiveServerMessage) : option string :=
  match serverContent message with
  | None => None
  | Some sc =>
      match modelTurn sc with
      | None => None
      | Some turn =>
          match parts turn with
          | [] => None
          | p :: _ =>
              match inlineData p with
              | None => None
              | Some blob => data blob
              end
          end
      end
  end.

(** [prev + t.text]: a missing text is the string of [undefined]. *)
Definition js_plus (prev : string) (t : Transcription) : string :=
  (prev ++ match text t with Some s => s | None => "undefined" end)%string.

(** A string in a condition: the empty string is false. *)
Definition truthy (s : string) : bool :=
  match s with EmptyString => false | _ => true end.

(** ** Resources and observable effects *)

Definition Session := nat.
Definition MediaStream := nat.

Inductive AudioContextState := suspended | running | closed.

(** [createScriptProcessor(bufferSize, 1, 1)] fed by the source of a stream. *)
Record ScriptProcessorNode := { bufferSize : N; source : MediaStream }.

(** How a handler ends: it returns, or an exception leaves it (for an
    [async] handler, its promise is rejected). *)
Inductive Completion := Returned | Raised.

Inductive Effect :=
| LiveConnect (s : Session)
| SessionClose (s : Session)
| GetUserMedia
| CaptureWired (p : ScriptProcessorNode)
| TracksStop (m : MediaStream)
| ProcessorDisconnect (p : ScriptProcessorNode)
| ContextClose
| SourceStart (when : double) (buffer : AudioBuffer)
| SendRealtimeInput (s : Session) (media : Blob)
| ConsoleError.

(** What the body of [try] in a start function meets: a constructor raises
    before [ai.live.connect] is reached, or [connect] returns the promise of
    a session. *)
Inductive StartOutcome := ConstructorRaises | Connects (s : Session).

(** ** LiveChat.tsx *)

Module LiveChat.

(** An entry of the transcript log and the shape of the interim buffer. *)
Record Turn := { user : string; model : string }.

Definition empty_turn : Turn := {| user := ""; model := "" |}.

(** The component: its four pieces of React state, its four refs, and the
    effects it has had on the browser and the backend, oldest first. *)
Record World := {
  isConnecting : bool;
  isActive : bool;
  transcription : list Turn;
  currentInterim : Turn;
  sessionRef : option Session;
  streamRef : option MediaStream;
  audioContextRef : option AudioContextState;
  scriptProcessorRef : option ScriptProcessorNode;
  trace : list Effect
}.

Definition initial : World :=
  {| isConnecting := false; isActive := false;
     transcription := []; currentInterim := empty_turn;
     sessionRef := None; streamRef := None;
     audioContextRef := None; scriptProcessorRef := None;
     trace := [] |}.

Definition setIsConnecting (b : bool) (w : World) : World :=
  {| isConnecting := b; isActive := isActive w;
     transcription := transcription w; currentInterim := currentInterim w;
     sessionRef := sessionRef w; streamRef := streamRef w;
     audioContextRef := audioContextRef w;
     scriptProcessorRef := scriptProcessorRef w; trace := trace w |}.

Definition setIsActive (b : bool) (w : World) : World :=
  {| isConnecting := isConnecting w; isActive := b;
     transcription := transcription w; currentInterim := currentInterim w;
     sessionRef := sessionRef w; streamRef := streamRef w;
     audioContextRef := audioContextRef w;
     scriptProcessorRef := scriptProcessorRef w; trace := trace w |}.

(** State setters take the updater, as [setTranscription(prev => ...)]. *)
Definition setTranscription (f : list Turn -> list Turn) (w : World) : World :=
  {| isConnecting := isConnecting w; isActive := isActive w;
     transcription := f (transcription w); currentInterim := currentInterim w;
     sessionRef := sessionRef w; streamRef := streamRef w;
     audioContextRef := audioContextRef w;
     scriptProcessorRef := scriptProcessorRef w; trace := trace w |}.

Definition setCurrentInterim (f : Turn -> Turn) (w : World) : World :=
  {| isConnecting := isConnecting w; isActive := isActive w;
     transcription := transcription w; currentInterim := f (currentInterim w);
     sessionRef := sessionRef w; streamRef := streamRef w;
     audioContextRef := audioContextRef w;
     scriptProcessorRef := scriptProcessorRef w; trace := trace w |}.

Definition set_sessionRef (v : option Session) (w : World) : World :=
  {| isConnecting := isConnecting w; isActive := isActive w;
     transcription := transcription w; currentInterim := currentInterim w;
     sessionRef := v; streamRef := streamRef w;
     audioContextRef := audioContextRef w;
     scriptProcessorRef := scriptProcessorRef w; trace := trace w |}.

Definition set_streamRef (v : option MediaStream) (w : World) : World :=
  {| isConnecting := isConnecting w; isActive := isActive w;
     transcription := transcription w; currentInterim := currentInterim w;
     sessionRef := sessionRef w; streamRef := v;
     audioContextRef := audioContextRef w;
     scriptProcessorRef := scriptProcessorRef w; trace := trace w |}.

Definition set_audioContextRef (v : option AudioContextState) (w : World) : World :=
  {| isConnecting := isConnecting w; isActive := isActive w;
     transcription := transcription w; currentInterim := currentInterim w;
     sessionRef := sessionRef w; streamRef := streamRef w;
     audioContextRef := v;
     scriptProcessorRef := scriptProcessorRef w; trace := trace w |}.

Definition set_scriptProcessorRef (v : option ScriptProcessorNode) (w : World) : World :=
  {| isConnecting := isConnecting w; isActive := isActive w;
     transcription := transcription w; currentInterim := currentInterim w;
     sessionRef := sessionRef w; streamRef := streamRef w;
     audioContextRef := audioContextRef w;
     scriptProcessorRef := v; trace := trace w |}.

(** Records one effect after those already made. *)
Definition emit (e : Effect) (w : World) : World :=
  {| isConnecting := isConnecting w; isActive := isActive w;
     transcription := transcription w; currentInterim := currentInterim w;
     sessionRef := sessionRef w; streamRef := streamRef w;
     audioContextRef := audioContextRef w;
     scriptProcessorRef := scriptProcessorRef w; trace := trace w ++ [e] |}.

(** The constants of the component scope that [startConversation] and the
    callbacks it creates read: the state as one render saw it. *)
Record Render := {
  r_isConnecting : bool;
  r_isActive : bool;
  r_currentInterim : Turn
}.

Definition render (w : World) : Render :=
  {| r_isConnecting := isConnecting w; r_isActive := isActive w;
     r_currentInterim := currentInterim w |}.

(** The scope of one call of [startConversation], shared by its callbacks:
    the render that made the call, and the local [nextStartTime]. *)
Record Conversation := {
  scope : Render;
  nextStartTime : double
}.

(** [stopConversation] (a [useCallback] without dependencies: it reads refs
    and calls setters only).  [close()] sets the state of an audio context
    to closed at once. *)
Definition stopConversation (w : World) : World :=
  let w :=
    match sessionRef w with
    | Some session => set_sessionRef None (emit (SessionClose session) w)
    | None => w
    end in
  let w :=
    match streamRef w with
    | Some stream => set_streamRef None (emit (TracksStop stream) w)
    | None => w
    end in
  let w :=
    match scriptProcessorRef w with
    | Some node => set_scriptProcessorRef None (emit (ProcessorDisconnect node) w)
    | None => w
    end in
  let w :=
    match audioContextRef w with
    | Some closed | None => w
    | Some _ => set_audioContextRef (Some closed) (emit ContextClose w)
    end in
  setIsConnecting false (setIsActive false w).

(** [startConversation], as created by render [r].  [let nextStartTime = 0]
    stands next to the construction of the output context. *)
Definition startConversation (r : Render) (o : StartOutcome) (w : World)
  : option Conversation * World :=
  if r_isActive r || r_isConnecting r then (None, w)
  else
    let w := setIsConnecting true w in
    let w := setTranscription (fun _ => []) w in
    let w := setCurrentInterim (fun _ => empty_turn) w in
    match o with
    | Connects session =>
        (Some {| scope := r; nextStartTime := dzero |},
         set_sessionRef (Some session) (emit (LiveConnect session) w))
    | ConstructorRaises =>
        (None, setIsConnecting false (emit ConsoleError w))
    end.

(** [onopen]: [mic] is what [getUserMedia] answers, [None] when it rejects
    (permission denied, no device); the rest of the callback follows the
    [await]. *)
Definition onopen (mic : option MediaStream) (w : World) : World * Completion :=
  let w := emit GetUserMedia w in
  match mic with
  | None => (w, Raised)
  | Some stream =>
      let w := set_streamRef (Some stream) w in
      let w := set_audioContextRef (Some running) w in
      let scriptProcessor := {| bufferSize := 4096; source := stream |} in
      let w := set_scriptProcessorRef (Some scriptProcessor) w in
      let w := emit (CaptureWired scriptProcessor) w in
      let w := setIsConnecting false w in
      (setIsActive true w, Returned)
  end.

(** [onaudioprocess], from the bytes of the [Int16Array] of one block. *)
Definition onaudioprocess (pcm : list byte) (w : World) : World :=
  let pcmBlob := {| data := Some (encode pcm);
                    mimeType := Some "audio/pcm;rate=16000"%string |} in
  match sessionRef w with
  | Some session => emit (SendRealtimeInput session pcmBlob) w
  | None => w
  end.

(** [onmessage]; [now] is [outputAudioContext.currentTime] as the handler
    reads it, a number that is neither negative nor [NaN]: with it and a
    cursor that started at zero, [source.start] is given a time that it
    takes.  The turn appended at [turnComplete] is the [currentInterim] of
    the scope, not of the state.  The handler is one step: what follows its
    [await] runs before the next event of the stream is dispatched. *)
Definition onmessage (c : Conversation) (now : double) (message : LiveServerMessage)
  (w : World) : Conversation * World * Completion :=
  let w :=
    match serverContent message with
    | Some sc =>
        let w :=
          match inputTranscription sc with
          | Some t =>
              setCurrentInterim
                (fun prev => {| user := js_plus (user prev) t; model := model prev |}) w
          | None => w
          end in
        let w :=
          match outputTranscription sc with
          | Some t =>
              setCurrentInterim
                (fun prev => {| user := user prev; model := js_plus (model prev) t |}) w
          | None => w
          end in
        if turnComplete sc then
          let w := setTranscription (fun prev => prev ++ [r_currentInterim (scope c)]) w in
          setCurrentInterim (fun _ => empty_turn) w
        else w
    | None => w
    end in
  match base64Audio message with
  | Some b =>
      if truthy b then
        let c := {| scope := scope c; nextStartTime := Math_max (nextStartTime c) now |} in
        match decode b with
        | None => (c, w, Raised)
        | Some bytes =>
            match decodeAudioData bytes 24000 1 with
            | None => (c, w, Raised)
            | Some audioBuffer =>
                let w := emit (SourceStart (nextStartTime c) audioBuffer) w in
                ({| scope := scope c;
                    nextStartTime := dadd (nextStartTime c) (duration audioBuffer) |},
                 w, Returned)
            end
        end
      else (c, w, Returned)
  | None => (c, w, Returned)
  end.

Definition onerror (w : World) : World := stopConversation (emit ConsoleError w).

Definition onclose (w : World) : World := stopConversation w.

(** The cleanup of the effect, run when the component unmounts. *)
Definition unmount (w : World) : World := stopConversation w.

(** The events of the message stream of one conversation, each with the
    clock of the output context on arrival. *)
Fixpoint deliver (c : Conversation) (w : World) (ms : list (double * LiveServerMessage))
  : Conversation * World :=
  match ms with
  | [] => (c, w)
  | (now, m) :: rest =>
      let '(c, w, _) := onmessage c now m w in
      deliver c w rest
  end.

(** The buffers started so far, with their start times, oldest first. *)
Fixpoint scheduled (t : list Effect) : list (double * AudioBuffer) :=
  match t with
  | [] => []
  | SourceStart when buffer :: rest => (when, buffer) :: scheduled rest
  | _ :: rest => scheduled rest
  end.

(** The effects made between world [w] and a later world [w']. *)
Definition effects_since (w w' : World) : list Effect :=
  skipn (List.length (trace w)) (trace w').

(** The buffer that a payload decodes to, [None] when [decode] or
    [decodeAudioData] raises. *)
Definition payload_buffer (b : string) : option AudioBuffer :=
  match decode b with
  | Some bytes => decodeAudioData bytes 24000 1
  | None => None
  end.

(** The message carries an inline audio payload that the handler takes up. *)
Definition has_audio (message : LiveServerMessage) : bool :=
  match base64Audio message with
  | Some b => truthy b
  | None => false
  end.

(** No overlap: every buffer starts no earlier than the end of the one
    before it, the end being the sum that line 150 computes. *)
Fixpoint back_to_back (l : list (double * AudioBuffer)) : Prop :=
  match l with
  | (start1, b1) :: rest =>
      match rest with
      | (start2, _) :: _ => dle (dadd start1 (duration b1)) start2 = true
      | [] => True
      end /\ back_to_back rest
  | [] => True
  end.

(** The cursor that started at [start] and was advanced by the duration of
    each buffer of [l] in turn: [((start + d1) + d2) + ...]. *)
Definition advance (start : double) (l : list (double * AudioBuffer)) : double :=
  fold_left (fun acc sb => dadd acc (duration (snd sb))) l start.

(** The sum of the durations of the buffers, added in the order of play. *)
Definition total_duration (l : list (double * AudioBuffer)) : double :=
  advance dzero l.

(** A run of buffers after a position of the cursor: the first starts at
    [lo] or later, each next one at the end of the one before or later. *)
Fixpoint chain (lo : double) (l : list (double * AudioBuffer)) : Prop :=
  match l with
  | [] => True
  | (start, b) :: rest => dle lo start = true /\ chain (dadd start (duration b)) rest
  end.

(** No underrun: each audio chunk arrives while the clock has not passed
    the cursor. *)
Fixpoint no_underrun (c : Conversation) (w : World)
  (ms : list (double * LiveServerMessage)) : Prop :=
  match ms with
  | [] => True
  | (now, m) :: rest =>
      (has_audio m = true -> dle now (nextStartTime c) = true) /\
      no_underrun (fst (fst (onmessage c now m w))) (snd (fst (onmessage c now m w))) rest
  end.

(** The clock of the output context on the arrival of each message is a
    time: zero or later. *)
Definition clock_valid (ms : list (double * LiveServerMessage)) : Prop :=
  Forall (fun e => non_negative (fst e)) ms.

End LiveChat.

(** ** The Transcriber component *)

Module Transcriber.

Record World := {
  isRecording : bool;
  transcription : string;
  finalizedTranscription : string;
  sessionRef : option Session;
  streamRef : option MediaStream;
  audioContextRef : option AudioContextState;
  scriptProcessorRef : option ScriptProcessorNode;
  trace : list Effect
}.

Definition initial : World :=
  {| isRecording := false; transcription := ""; finalizedTranscription := "";
     sessionRef := None; streamRef := None;
     audioContextRef := None; scriptProcessorRef := None; trace := [] |}.

Definition setIsRecording (b : bool) (w : World) : World :=
  {| isRecording := b; transcription := transcription w;
     finalizedTranscription := finalizedTranscription w;
     sessionRef := sessionRef w; streamRef := streamRef w;
     audioContextRef := audioContextRef w;
     scriptProcessorRef := scriptProcessorRef w; trace := trace w |}.

Definition setTranscription (f : string -> string) (w : World) : World :=
  {| isRecording := isRecording w; transcription := f (transcription w);
     finalizedTranscription := finalizedTranscription w;
     sessionRef := sessionRef w; streamRef := streamRef w;
     audioContextRef := audioContextRef w;
     scriptProcessorRef := scriptProcessorRef w; trace := trace w |}.

Definition setFinalizedTranscription (f : string -> string) (w : World) : World :=
  {| isRecording := isRecording w; transcription := transcription w;
     finalizedTranscription := f (finalizedTranscription w);
     sessionRef := sessionRef w; streamRef := streamRef w;
     audioContextRef := audioContextRef w;
     scriptProcessorRef := scriptProcessorRef w; trace := trace w |}.

Definition set_sessionRef (v : option Session) (w : World) : World :=
  {| isRecording := isRecording w; transcription := transcription w;
     finalizedTranscription := finalizedTranscription w;
     sessionRef := v; streamRef := streamRef w;
     audioContextRef := audioContextRef w;
     scriptProcessorRef := scriptProcessorRef w; trace := trace w |}.

Definition set_streamRef (v : option MediaStream) (w : World) : World :=
  {| isRecording := isRecording w; transcription := transcription w;
     finalizedTranscription := finalizedTranscription w;
     sessionRef := sessionRef w; streamRef := v;
     audioContextRef := audioContextRef w;
     scriptProcessorRef := scriptProcessorRef w; trace := trace w |}.

Definition set_audioContextRef (v : option AudioContextState) (w : World) : World :=
  {| isRecording := isRecording w; transcription := transcription w;
     finalizedTranscription := finalizedTranscription w;
     sessionRef := sessionRef w; streamRef := streamRef w;
     audioContextRef := v;
     scriptProcessorRef := scriptProcessorRef w; trace := trace w |}.

Definition set_scriptProcessorRef (v : option ScriptProcessorNode) (w : World) : World :=
  {| isRecording := isRecording w; transcription := transcription w;
     finalizedTranscription := finalizedTranscription w;
     sessionRef := sessionRef w; streamRef := streamRef w;
     audioContextRef := audioContextRef w;
     scriptProcessorRef := v; trace := trace w |}.

Definition emit (e : Effect) (w : World) : World :=
  {| isRecording := isRecording w; transcription := transcription w;
     finalizedTranscription := finalizedTranscription w;
     sessionRef := sessionRef w; streamRef := streamRef w;
     audioContextRef := audioContextRef w;
     scriptProcessorRef := scriptProcessorRef w; trace := trace w ++ [e] |}.

(** What the functions of one render read from the component scope. *)
Record Render := {
  r_isRecording : bool;
  r_transcription : string
}.

Definition render (w : World) : Render :=
  {| r_isRecording := isRecording w; r_transcription := transcription w |}.

(** [stopTranscription] of render [r] ([useCallback] on [transcription]):
    the text it appends is the [transcription] of that render. *)
Definition stopTranscription (r : Render) (w : World) : World :=
  let w :=
    match sessionRef w with
    | Some session => set_sessionRef None (emit (SessionClose session) w)
    | None => w
    end in
  let w :=
    match streamRef w with
    | Some stream => set_streamRef None (emit (TracksStop stream) w)
    | None => w
    end in
  let w :=
    match scriptProcessorRef w with
    | Some node => set_scriptProcessorRef None (emit (ProcessorDisconnect node) w)
    | None => w
    end in
  let w :=
    match audioContextRef w with
    | Some closed | None => w
    | Some _ => set_audioContextRef (Some closed) (emit ContextClose w)
    end in
  let w := setIsRecording false w in
  let w := setFinalizedTranscription (fun prev => (prev ++ r_transcription r)%string) w in
  setTranscription (fun _ => EmptyString) w.

(** [startTranscription] of render [r]; its callbacks keep [r] as scope. *)
Definition startTranscription (r : Render) (o : StartOutcome) (w : World)
  : option Render * World :=
  if r_isRecording r then (None, w)
  else
    match o with
    | Connects session =>
        (Some r, set_sessionRef (Some session) (emit (LiveConnect session) w))
    | ConstructorRaises =>
        (None, setIsRecording false (emit ConsoleError w))
    end.

Definition onopen (mic : option MediaStream) (w : World) : World * Completion :=
  let w := emit GetUserMedia w in
  match mic with
  | None => (w, Raised)
  | Some stream =>
      let w := set_streamRef (Some stream) w in
      let w := set_audioContextRef (Some running) w in
      let scriptProcessor := {| bufferSize := 4096; source := stream |} in
      let w := set_scriptProcessorRef (Some scriptProcessor) w in
      let w := emit (CaptureWired scriptProcessor) w in
      (setIsRecording true w, Returned)
  end.

Definition onmessage (r : Render) (message : LiveServerMessage) (w : World) : World :=
  match serverContent message with
  | Some sc =>
      let w :=
        match inputTranscription sc with
        | Some t => setTranscription (fun prev => js_plus prev t) w
        | None => w
        end in
      if turnComplete sc then
        let w := setFinalizedTranscription (fun prev => (prev ++ r_transcription r)%string) w in
        setTranscription (fun _ => EmptyString) w
      else w
  | None => w
  end.

Definition onerror (r : Render) (w : World) : World :=
  stopTranscription r (emit ConsoleError w).

Definition onclose (w : World) : World := setIsRecording false w.

(** The cleanup of the effect keeps the [stopTranscription] of the first
    render. *)
Definition unmount (w : World) : World := stopTranscription (render initial) w.

(** A click on the button while recording: the handler of the current
    render. *)
Definition click_stop (w : World) : World := stopTranscription (render w) w.

(** A click on the button:
    [onClick={isRecording ? stopTranscription : startTranscription}], with
    the handlers of the current render. *)
Definition click (o : StartOutcome) (w : World) : World :=
  if isRecording w then click_stop w
  else snd (startTranscription (render w) o w).

(** Calls of [stopTranscription] in a row, each by the closure of some
    render. *)
Definition stops (rs : list Render) (w : World) : World :=
  fold_left (fun w r => stopTranscription r w) rs w.

End Transcriber.

(** ** The capture path of [onaudioprocess] *)

Module Capture.

(** [ToInt16] of a finite number: truncation toward zero, then the value
    modulo 2^16 read as a signed integer.  There is no clamping. *)
Definition ToInt16 (x : Q) : Z :=
  let int := Z.quot (Qnum x) (Z.pos (Qden x)) in
  let int16bit := (int mod 65536)%Z in
  if (int16bit >=? 32768)%Z then (int16bit - 65536)%Z else int16bit.

(** The byte of a number below 256. *)
Definition byte_of_Z (z : Z) : byte := byte_of_ascii (ascii_of_N (Z.to_N z)).

(** The two bytes of a 16-bit integer in the buffer, low byte first. *)
Definition int16_bytes (z : Z) : list byte :=
  let u := (z mod 65536)%Z in
  [byte_of_Z (u mod 256); byte_of_Z (u / 256)].

(** [new Int16Array(inputData.map(f => f * 32768))]: a sample of the
    [Float32Array] is a rational, and its product with 2^15 is exact. *)
Definition samples16 (inputData : list Q) : list Z :=
  map (fun f => ToInt16 (f * 32768)%Q) inputData.

(** [new Uint8Array(int16Array.buffer)] *)
Definition pcm_bytes (inputData : list Q) : list byte :=
  flat_map int16_bytes (samples16 inputData).

(** [onaudioprocess] of LiveChat on the samples of one input block. *)
Definition audioprocess (inputData : list Q) (w : LiveChat.World) : LiveChat.World :=
  LiveChat.onaudioprocess (pcm_bytes inputData) w.

End Capture.

(** ** Strings of the forms *)

(** The white space that [trim] removes, among the code units up to 255:
    TAB, LF, VT, FF, CR, SPACE and NBSP. *)
Definition is_white_space (c : ascii) : bool :=
  let n := N_of_ascii c in
  (n =? 9) || (n =? 10) || (n =? 11) || (n =? 12) || (n =? 13) || (n =? 32)
  || (n =? 160).

Fixpoint trim_start (s : list ascii) : list ascii :=
  match s with
  | c :: rest => if is_white_space c then trim_start rest else s
  | [] => []
  end.

(** [String.prototype.trim] *)
Definition trim (s : string) : string :=
  string_of_list_ascii
    (rev (trim_start (rev (trim_start (list_ascii_of_string s))))).

(** ** Web storage *)

Module Storage.

Definition t := string -> option string.

Definition getItem (st : t) (key : string) : option string := st key.

Definition setItem (key value : string) (st : t) : t :=
  fun k => if String.eqb k key then Some value else st k.

Definition removeItem (key : string) (st : t) : t :=
  fun k => if String.eqb k key then None else st k.

Definition empty : t := fun _ => None.

End Storage.

(** ** The LoginPage component *)

Module LoginPage.

(** The object literal [validUsers], own properties in order. *)
Definition validUsers : list (string * string) :=
  [("student", "pass123"); ("teacher", "admin"); ("demouser", "demo")]%string.

(** [validUsers[username]] as far as a comparison with a string can tell: a
    name that is no own property gives [undefined] or a member of
    [Object.prototype], a function or an object, and neither is
    strictly equal to a string. *)
Fixpoint own_string (o : list (string * string)) (key : string) : option string :=
  match o with
  | [] => None
  | (k, v) :: rest => if String.eqb k key then Some v else own_string rest key
  end.

Record World := {
  username : string;
  password : string;
  error : string
}.

(** [handleSubmit]: the new state, and the argument of [onLogin] when it is
    called. *)
Definition handleSubmit (w : World) : World * option string :=
  if negb (truthy (trim (username w))) then
    ({| username := username w; password := password w;
        error := "Please enter a username." |}, None)
  else
    match own_string validUsers (username w) with
    | Some v =>
        if String.eqb v (password w) then
          ({| username := username w; password := password w; error := "" |},
           Some (username w))
        else
          ({| username := username w; password := password w;
              error := "Invalid username or password." |}, None)
    | None =>
        ({| username := username w; password := password w;
            error := "Invalid username or password." |}, None)
    end.

Definition handleSocialLogin (user : string) (w : World) : World * option string :=
  ({| username := username w; password := password w; error := "" |}, Some user).

End LoginPage.

(** ** App.tsx *)

Module App.

Inductive Feature := chat | media | live | transcribe.


Record World := {
  activeFeature : Feature;
  currentUser : option string;
  isSidebarOpen : bool;
  sessionStorage : Storage.t;
  localStorage : Storage.t
}.

(** The first render: [currentUser] is read from the session storage. *)
Definition mount (session local : Storage.t) : World :=
  {| activeFeature := chat;
     currentUser := Storage.getItem session "chatgps-currentUser";
     isSidebarOpen := false;
     sessionStorage := session; localStorage := local |}.

Definition handleLogin (username : string) (w : World) : World :=
  {| activeFeature := activeFeature w;
     currentUser := Some username;
     isSidebarOpen := isSidebarOpen w;
     sessionStorage := Storage.setItem "chatgps-currentUser" username (sessionStorage w);
     localStorage := localStorage w |}.

(** [handleLogout]; [confirmed] is the answer of [window.confirm]. *)
Definition handleLogout (confirmed : bool) (w : World) : World :=
  if confirmed then
    {| activeFeature := activeFeature w;
       currentUser := None;
       isSidebarOpen := false;
       sessionStorage := Storage.removeItem "chatgps-currentUser" (sessionStorage w);
       localStorage :=
         match currentUser w with
         | Some u =>
             if truthy u
             then Storage.removeItem ("chatgps-chat-history-" ++ u)%string (localStorage w)
             else localStorage w
         | None => localStorage w
         end |}
  else w.

(** [handleNavItemClick] of the sidebar. *)
Definition handleNavItemClick (feature : Feature) (w : World) : World :=
  {| activeFeature := feature; currentUser := currentUser w;
     isSidebarOpen := false;
     sessionStorage := sessionStorage w; localStorage := localStorage w |}.



End App.

(** ** Chat.tsx: the text chat *)

Module Chat.

Inductive Role := user | model.

(** A [ChatMessage]; a part is its text. *)
Record ChatMessage := { role : Role; parts : list string }.

Definition CHAT_HISTORY_KEY (currentUser : string) : string :=
  ("chatgps-chat-history-" ++ currentUser)%string.

Record World := {
  messages : list ChatMessage;
  input : string;
  isLoading : bool;
  useLiteModel : bool;
  subject : string;
  problemType : string
}.

(** The call of [generateText] and what it makes of it: the model and the
    chat it creates, and the message it sends. *)
Record Request := {
  req_model : string;
  req_history : list ChatMessage;
  req_message : string
}.

Definition generateText (prompt : string) (history : list ChatMessage)
  (lite : bool) : Request :=
  {| req_model := if lite then "gemini-flash-lite-latest" else "gemini-2.5-flash";
     req_history := history;
     req_message := prompt |}.

Definition newline : string := String (ascii_of_N 10) EmptyString.

Definition promptForAI (r : World) : string :=
  if negb (String.eqb (subject r) "General")
     || negb (String.eqb (problemType r) "General Question")
  then
    ("As an expert in " ++ subject r
       ++ ", please help me with the following task: " ++ problemType r ++ "."
       ++ newline ++ newline ++ "Here is my problem:" ++ newline ++ input r)%string
  else input r.

(** [handleSend] up to its [await]; [r] is the state as the render of the
    handler saw it. *)
Definition handleSend_request (r : World) (w : World) : option Request * World :=
  if negb (truthy (trim (input r))) || isLoading r then (None, w)
  else
    let userMessage := {| role := user; parts := [input r] |} in
    (Some (generateText (promptForAI r) (messages r) (useLiteModel r)),
     {| messages := messages w ++ [userMessage];
        input := "";
        isLoading := true;
        useLiteModel := useLiteModel w;
        subject := subject w; problemType := problemType w |}).

(** [handleSend] after its [await]: the text of the response, or [None]
    when [generateText] rejects. *)
Definition handleSend_response (response : option string) (w : World) : World :=
  let reply :=
    match response with
    | Some text => {| role := model; parts := [text] |}
    | None =>
        {| role := model;
           parts := ["Sorry, I encountered an error. Please try again."%string] |}
    end in
  {| messages := messages w ++ [reply];
     input := input w;
     isLoading := false;
     useLiteModel := useLiteModel w;
     subject := subject w; problemType := problemType w |}.

(** A submit of the form and the answer to it. *)
Definition send (response : option string) (w : World) : option Request * World :=
  match handleSend_request w w with
  | (Some q, w1) => (Some q, handleSend_response response w1)
  | (None, w1) => (None, w1)
  end.

(** The effect that saves the history: [json] is [JSON.stringify(messages)]. *)
Definition saveHistory (currentUser json : string) (local : Storage.t) : Storage.t :=
  Storage.setItem (CHAT_HISTORY_KEY currentUser) json local.

(** The roles take turns, the user first, and the model has answered. *)
Fixpoint takes_turns (l : list ChatMessage) : bool :=
  match l with
  | [] => true
  | a :: rest =>
      match rest with
      | b :: rest' =>
          match role a, role b with
          | user, model => takes_turns rest'
          | _, _ => false
          end
      | [] => false
      end
  end.

End Chat.

(** ** MediaAnalyzer.tsx: [fileToBase64] *)

Module MediaAnalyzer.

(** [s.split(',')] on the characters of [s]. *)
Fixpoint split_comma (s : list ascii) : list (list ascii) :=
  match s with
  | [] => [[]]
  | c :: rest =>
      if Ascii.eqb c ","%char then [] :: split_comma rest
      else
        match split_comma rest with
        | piece :: pieces => (c :: piece) :: pieces
        | [] => [[c]]
        end
  end.

(** What [readAsDataURL] hands to [onload] for a file of the given type and
    content. *)
Definition readAsDataURL (type content : string) : string :=
  ("data:" ++ type ++ ";base64," ++ Base64.btoa content)%string.

(** [fileToBase64]: [(reader.result as string).split(',')[1]], [None] when
    it is [undefined]. *)
Definition fileToBase64 (result : string) : option string :=
  match nth_error (split_comma (list_ascii_of_string result)) 1 with
  | Some piece => Some (string_of_list_ascii piece)
  | None => None
  end.

End MediaAnalyzer.

(** ** Vocabulary of the further properties *)

(** The range of a signed 16-bit integer. *)
Definition int16_range (z : Z) : Prop := (-32768 <= z < 32768)%Z.

(** The effect is the start of a buffer. *)
Definition is_source_start (e : Effect) : Prop :=
  match e with SourceStart _ _ => True | _ => False end.

(** The messages of the stream of one transcription, in order. *)
Definition transcriber_deliver (r : Transcriber.Render) (w : Transcriber.World)
  (ms : list LiveServerMessage) : Transcriber.World :=
  fold_left (fun w m => Transcriber.onmessage r m w) ms w.

(** The text that a message adds to the interim transcription. *)
Definition heard (m : LiveServerMessage) : string :=
  match serverContent m with
  | Some sc =>
      match inputTranscription sc with
      | Some t => js_plus EmptyString t
      | None => EmptyString
      end
  | None => EmptyString
  end.

(** The message does not complete a turn. *)
Definition turn_open (m : LiveServerMessage) : bool :=
  match serverContent m with
  | Some sc => negb (turnComplete sc)
  | None => true
  end.

(** What the page of the Transcriber shows: the finalized text, then the
    interim text. *)
Definition transcriber_shown (w : Transcriber.World) : string :=
  (Transcriber.finalizedTranscription w ++ Transcriber.transcription w)%string.

(** No comma among the characters. *)
Definition no_comma (l : list ascii) : Prop :=
  Forall (fun c => Ascii.eqb c ","%char = false) l.

(** ** Scenarios *)

(** The scope of the first conversation of a component: [startConversation]
    of the first render. *)
Definition first_conversation : LiveChat.Conversation :=
  {| LiveChat.scope := LiveChat.render LiveChat.initial;
     LiveChat.nextStartTime := dzero |}.

(** A start in flight: the stream was requested, [onopen] has not run. *)
Definition connecting_conversation : LiveChat.World :=
  snd (LiveChat.startConversation (LiveChat.render LiveChat.initial)
         (Connects 1%nat) LiveChat.initial).

(** A session that is active: the start above, opened with the microphone
    granted. *)
Definition active_conversation : LiveChat.World :=
  fst (LiveChat.onopen (Some 7%nat) connecting_conversation).

(** A transcription that is recording: started from the first render and
    opened with the microphone granted. *)
Definition active_transcription : Transcriber.World :=
  fst (Transcriber.onopen (Some 7%nat)
         (snd (Transcriber.startTranscription (Transcriber.render Transcriber.initial)
                 (Connects 1%nat) Transcriber.initial))).

(** A message with a partial transcription of the input, of the output, and
    the message that completes a turn. *)
Definition partial_input (s : string) : LiveServerMessage :=
  {| serverContent :=
       Some {| inputTranscription := Some {| text := Some s |};
               outputTranscription := None;
               turnComplete := false; modelTurn := None |} |}.

Definition partial_output (s : string) : LiveServerMessage :=
  {| serverContent :=
       Some {| inputTranscription := None;
               outputTranscription := Some {| text := Some s |};
               turnComplete := false; modelTurn := None |} |}.

Definition turn_complete : LiveServerMessage :=
  {| serverContent :=
       Some {| inputTranscription := None; outputTranscription := None;
               turnComplete := true; modelTurn := None |} |}.

(** A run of partial transcriptions, each of the input side ([true]) or of
    the output side ([false]), as messages, and the text that one side has
    said in the run. *)
Definition partial_message (d : bool * string) : LiveServerMessage :=
  if fst d then partial_input (snd d) else partial_output (snd d).

Fixpoint said (side : bool) (ds : list (bool * string)) : string :=
  match ds with
  | [] => EmptyString
  | (sd, s) :: rest =>
      if Bool.eqb sd side then (s ++ said side rest)%string else said side rest
  end.

(** A message with an inline audio payload. *)
Definition audio_chunk (b : string) : LiveServerMessage :=
  {| serverContent :=
       Some {| inputTranscription := None; outputTranscription := None;
               turnComplete := false;
               modelTurn :=
                 Some {| parts :=
                           [{| inlineData :=
                                 Some {| data := Some b;
                                         mimeType := Some "audio/pcm;rate=24000"%string |} |}] |} |} |}.

(** The transcription above has heard ["abc"] when the stream is closed by
    the backend; the page still shows the interim text. *)
Definition closed_transcription : Transcriber.World :=
  Transcriber.onclose
    (Transcriber.onmessage (Transcriber.render Transcriber.initial)
       (partial_input "abc") active_transcription).

(** The button is clicked again and the new stream opens: its callbacks
    have the render of that click as scope. *)
Definition resumed_transcription : Transcriber.World :=
  fst (Transcriber.onopen (Some 8%nat)
         (Transcriber.click (Connects 2%nat) closed_transcription)).

(** * Properties *)

Example encode_Man :
  encode [x4d; x61; x6e]%byte = "TWFu"%string /\
  encode [x4d; x61]%byte = "TWE="%string /\
  encode [x4d]%byte = "TQ=="%string /\
  decode "TWFu"%string = Some [x4d; x61; x6e]%byte /\
  decode "TQ=="%string = Some [x4d]%byte /\
  decode " T W E = "%string = Some [x4d; x61]%byte /\
  decode "TWE"%string = Some [x4d; x61]%byte /\
  decode "TWFuT"%string = None /\
  decode "TW-u"%string = None.
Proof. repeat split; reflexivity. Qed.

(** ** The base64 wire format *)

Ltac Zify.zify_post_hook ::= Z.to_euclidean_division_equations.

Section Base64Facts.
Import Base64.

(** Induction on a list three elements at a time, as [btoa] reads it. *)
Lemma list_ind3 (A : Type) (P : list A -> Prop) :
  P [] -> (forall a, P [a]) -> (forall a b, P [a; b]) ->
  (forall a b c rest, P rest -> P (a :: b :: c :: rest)) ->
  forall l, P l.
Proof.
  intros H0 H1 H2 H3.
  fix IH 1.
  intros [|a [|b [|c rest]]];
    [apply H0 | apply H1 | apply H2 | apply H3, IH].
Qed.

Lemma b64val_b64char v : v < 64 -> b64val (b64char v) = Some v.
Proof.
  intros Hv. unfold b64val, b64char.
  destruct (N.ltb_spec v 26); [|destruct (N.ltb_spec v 52);
    [|destruct (N.ltb_spec v 62); [|destruct (N.eqb_spec v 62)]]];
  rewrite N_ascii_embedding by lia;
  repeat match goal with
         | |- context [?a <=? ?b] => destruct (N.leb_spec a b); try lia
         | |- context [?a =? ?b] => destruct (N.eqb_spec a b); try lia
         end; cbn [andb]; f_equal; lia.
Qed.

Lemma b64val_not_space c v : b64val c = Some v -> is_ascii_whitespace c = false.
Proof.
  unfold b64val, is_ascii_whitespace. generalize (N_of_ascii c). intros n.
  repeat match goal with
         | |- context [?a =? ?k] =>
             destruct (N.eqb_spec a k) as [-> | _];
             [vm_compute; intros; (discriminate || reflexivity)|]
         end.
  intros _. reflexivity.
Qed.

Lemma b64val_not_pad c v : b64val c = Some v -> is_pad c = false.
Proof.
  unfold b64val, is_pad. generalize (N_of_ascii c). intros n.
  repeat match goal with
         | |- context [?a =? ?k] =>
             destruct (N.eqb_spec a k) as [-> | _];
             [vm_compute; intros; (discriminate || reflexivity)|]
         end.
  intros _. reflexivity.
Qed.

Lemma btoa_chars_split s :
  btoa_chars s = map b64char (btoa_sextets s) ++ btoa_padding s.
Proof.
  induction s as [| a | a b | a b c rest IH] using list_ind3;
    cbn [btoa_chars btoa_sextets btoa_padding map app]; try reflexivity.
  now rewrite IH.
Qed.

Lemma btoa_sextets_bound s : Forall (fun v => v < 64) (btoa_sextets s).
Proof.
  induction s as [| a | a b | a b c rest IH] using list_ind3;
    cbn [btoa_sextets]; repeat constructor; try assumption;
    unfold sextet1, sextet2, sextet3, sextet4;
    repeat match goal with
           | |- context [N_of_ascii ?x] =>
               let H := fresh in
               pose proof (N_ascii_bounded x) as H;
               generalize dependent (N_of_ascii x); intros
           end; lia.
Qed.

Lemma btoa_padding_cases s :
  btoa_padding s = [] \/ btoa_padding s = [pad] \/ btoa_padding s = [pad; pad].
Proof.
  induction s as [| a | a b | a b c rest IH] using list_ind3;
    cbn [btoa_padding]; auto.
Qed.

(** Lengths modulo four: the text is made of whole groups, the 6-bit values
    never leave a single one over. *)
Lemma btoa_chars_length s : N.of_nat (List.length (btoa_chars s)) mod 4 = 0.
Proof.
  induction s as [| a | a b | a b c rest IH] using list_ind3;
    cbn [btoa_chars List.length]; try reflexivity.
  rewrite !Nat2N.inj_succ. lia.
Qed.

Lemma btoa_sextets_length s :
  N.of_nat (List.length (btoa_sextets s)) mod 4 <> 1.
Proof.
  induction s as [| a | a b | a b c rest IH] using list_ind3;
    cbn [btoa_sextets List.length]; try (cbv; discriminate).
  rewrite !Nat2N.inj_succ. lia.
Qed.

Lemma filter_keeps_all (A : Type) (f : A -> bool) (l : list A) :
  Forall (fun x => f x = true) l -> filter f l = l.
Proof.
  induction 1 as [| x l Hx _ IH]; cbn [filter]; [reflexivity|].
  now rewrite Hx, IH.
Qed.

Lemma sextets_b64char vs :
  Forall (fun v => v < 64) vs -> sextets (map b64char vs) = Some vs.
Proof.
  induction 1 as [| v vs Hv _ IH]; cbn [map sextets]; [reflexivity|].
  now rewrite (b64val_b64char v Hv), IH.
Qed.

Lemma strip_padding_id body :
  Forall (fun c => is_pad c = false) body ->
  strip_padding body = body /\
  strip_padding (body ++ [pad]) = body /\
  strip_padding (body ++ [pad; pad]) = body.
Proof.
  intros Hb. apply Forall_rev in Hb.
  rewrite <- (rev_involutive body).
  remember (rev body) as rb eqn:E. clear E body.
  unfold strip_padding. rewrite <- !rev_alt.
  rewrite !rev_app_distr, !rev_involutive. cbn [rev app].
  change (is_pad pad) with true. cbv iota.
  destruct Hb as [| p rb Hp Hb]; [repeat split; reflexivity|].
  rewrite Hp.
  destruct Hb as [| q rb Hq Hb]; [repeat split; reflexivity|].
  repeat split; rewrite <- ?rev_alt; reflexivity.
Qed.

(** The arithmetic of one group: the bytes come back from their four 6-bit
    values, and from the two or three values of a last short group. *)
Lemma group_of_one a :
  (sextet1 a * 64 + sextet2 a 0) / 16 = a.
Proof. unfold sextet1, sextet2. change (0 / 16) with 0. lia. Qed.

Lemma group_of_two a b :
  b < 256 ->
  let n := ((sextet1 a * 64 + sextet2 a b) * 64 + sextet3 b 0) / 4 in
  n / 256 = a /\ n mod 256 = b.
Proof.
  intros Hb n.
  assert (E : n = a * 256 + b).
  { subst n. unfold sextet1, sextet2, sextet3. change (0 / 64) with 0.
    replace ((a / 4 * 64 + (a mod 4 * 16 + b / 16)) * 64 + (b mod 16 * 4 + 0))
      with ((a * 256 + b) * 4) by lia.
    apply N.div_mul. discriminate. }
  rewrite E. lia.
Qed.

Lemma group_of_three a b c :
  b < 256 -> c < 256 ->
  let n := ((sextet1 a * 64 + sextet2 a b) * 64 + sextet3 b c) * 64 + sextet4 c in
  n / 65536 = a /\ (n / 256) mod 256 = b /\ n mod 256 = c.
Proof.
  intros Hb Hc n.
  assert (E : n = a * 65536 + b * 256 + c).
  { subst n. unfold sextet1, sextet2, sextet3, sextet4. lia. }
  rewrite E. clear E n.
  assert (E : (a * 65536 + b * 256 + c) / 256 = a * 256 + b) by lia.
  rewrite E. lia.
Qed.

Lemma sextets_bytes_btoa s : sextets_bytes (btoa_sextets s) = s.
Proof.
  induction s as [| a | a b | a b c rest IH] using list_ind3;
    cbn [btoa_sextets sextets_bytes]; cbv zeta.
  - reflexivity.
  - now rewrite group_of_one, ascii_N_embedding.
  - destruct (group_of_two (N_of_ascii a) (N_of_ascii b) (N_ascii_bounded b))
      as [-> ->].
    now rewrite !ascii_N_embedding.
  - destruct (group_of_three (N_of_ascii a) (N_of_ascii b) (N_of_ascii c)
                (N_ascii_bounded b) (N_ascii_bounded c)) as (-> & -> & ->).
    now rewrite !ascii_N_embedding, IH.
Qed.

Lemma atob_btoa_chars s : atob_chars (btoa_chars s) = Some s.
Proof.
  pose proof (btoa_sextets_bound s) as Hv.
  assert (Hval : Forall (fun c => exists v, b64val c = Some v)
                        (map b64char (btoa_sextets s))).
  { apply Forall_map. eapply Forall_impl; [|exact Hv].
    intros v Hlt. exists v. now apply b64val_b64char. }
  assert (Hpad : Forall (fun c => is_pad c = false) (map b64char (btoa_sextets s))).
  { eapply Forall_impl; [|exact Hval]. intros c [v Hc]. eapply b64val_not_pad, Hc. }
  assert (Hws : Forall (fun c => negb (is_ascii_whitespace c) = true) (btoa_chars s)).
  { rewrite btoa_chars_split. apply Forall_app. split.
    - eapply Forall_impl; [|exact Hval]. intros c [v Hc].
      now rewrite (b64val_not_space c v Hc).
    - destruct (btoa_padding_cases s) as [-> | [-> | ->]]; repeat constructor. }
  unfold atob_chars.
  rewrite (filter_keeps_all _ _ _ Hws), btoa_chars_length. cbn [N.eqb].
  replace (strip_padding (btoa_chars s)) with (map b64char (btoa_sextets s)).
  2:{ rewrite btoa_chars_split.
      destruct (strip_padding_id _ Hpad) as (E0 & E1 & E2).
      destruct (btoa_padding_cases s) as [-> | [-> | ->]];
        [rewrite app_nil_r|..]; congruence. }
  rewrite length_map.
  destruct (N.eqb_spec (N.of_nat (List.length (btoa_sextets s)) mod 4) 1) as [E|_];
    [now apply btoa_sextets_length in E|].
  now rewrite (sextets_b64char _ Hv), sextets_bytes_btoa.
Qed.

Lemma atob_btoa s : atob (btoa s) = Some s.
Proof.
  unfold atob, btoa.
  rewrite list_ascii_of_string_of_list_ascii, atob_btoa_chars.
  now rewrite string_of_list_ascii_of_string.
Qed.

(** The binary string of [encode]: one character per byte, in order. *)
Lemma binary_string acc bytes :
  fold_left (fun acc b => (acc ++ String (ascii_of_byte b) EmptyString)%string)
            bytes acc
  = (acc ++ string_of_list_ascii (map ascii_of_byte bytes))%string.
Proof.
  revert acc. induction bytes as [| b bytes IH]; intros acc; cbn [fold_left map].
  - cbn [string_of_list_ascii]. induction acc as [| c acc IHacc]; cbn; congruence.
  - rewrite IH. cbn [string_of_list_ascii].
    induction acc as [| c acc IHacc]; cbn; congruence.
Qed.

End Base64Facts.

(** C10. For every byte array [b], [decode (encode b)] returns [b]: the
    base64 text of [encode] is read back by [decode] without loss, and
    neither function raises on the way. *)
Theorem decode_encode (b : list byte) : decode (encode b) = Some b.
Proof.
  unfold decode, encode.
  rewrite binary_string. cbn [append].
  rewrite atob_btoa, list_ascii_of_string_of_list_ascii, map_map.
  f_equal. rewrite <- (map_id b) at 2.
  apply map_ext. intros x. apply byte_of_ascii_of_byte.
Qed.

(** ** Numbers *)

Section Binary64.
Local Open Scope Z_scope.

(** [<=] and [==] on numbers are the lexicographic order of class, exponent
    and mantissa. *)
Lemma SFcompare_key (x y : double) :
  match SFcompare x y with
  | None => is_nan x = true \/ is_nan y = true
  | Some Lt => is_nan x = false /\ is_nan y = false /\ lexlt x y
  | Some Eq => is_nan x = false /\ is_nan y = false /\ lexeq x y
  | Some Gt => is_nan x = false /\ is_nan y = false /\ lexlt y x
  end.
Proof.
  unfold lexlt, lexeq.
  destruct x as [[] | [] | | [] mx ex], y as [[] | [] | | [] my ey]; cbn;
    try (repeat split; auto; lia);
    try (destruct (Z.compare_spec ex ey); cbn;
         [ change (Pos.compare_cont Eq ?a ?b) with (Pos.compare a b);
           destruct (Pos.compare_spec mx my); cbn
         | | ]; repeat split; auto; lia).
Qed.

Lemma dle_key (x y : double) :
  dle x y = true <->
  is_nan x = false /\ is_nan y = false /\ (lexlt x y \/ lexeq x y).
Proof.
  unfold dle, SFleb. pose proof (SFcompare_key x y) as H.
  pose proof (SFcompare_key y x) as H'.
  unfold lexlt, lexeq in *.
  destruct (SFcompare x y) as [[] |]; split; intros K;
    try discriminate; try reflexivity; try tauto.
  - exfalso. lia.
  - exfalso. destruct H; destruct K as (? & ? & ?); congruence.
Qed.

Lemma deq_key (x y : double) :
  deq x y = true <-> is_nan x = false /\ is_nan y = false /\ lexeq x y.
Proof.
  unfold deq, SFeqb. pose proof (SFcompare_key x y) as H.
  unfold lexlt, lexeq in *.
  destruct (SFcompare x y) as [[] |]; split; intros K;
    try discriminate; try reflexivity; try tauto.
  - exfalso. lia.
  - exfalso. lia.
  - exfalso. destruct H; destruct K as (? & ? & ?); congruence.
Qed.

Lemma dle_trans (x y z : double) :
  dle x y = true -> dle y z = true -> dle x z = true.
Proof.
  rewrite !dle_key. unfold lexlt, lexeq. intros (? & ? & ?) (? & ? & ?).
  repeat split; auto. lia.
Qed.

Lemma dle_refl (x : double) : is_nan x = false -> dle x x = true.
Proof.
  intros H. apply dle_key. unfold lexeq. repeat split; auto.
Qed.

Lemma non_negative_not_nan (x : double) : non_negative x -> is_nan x = false.
Proof. now destruct x as [[] | [] | | [] ? ?]. Qed.

Lemma Math_max_key (a b : double) :
  is_nan a = false -> is_nan b = false ->
  is_nan (Math_max a b) = false /\
  ((Math_max a b = a \/ (lexeq a b /\ Math_max a b = b)) /\ (lexlt b a \/ lexeq a b) \/
   (Math_max a b = b /\ lexlt a b)).
Proof.
  intros Ha Hb. unfold Math_max. pose proof (SFcompare_key a b) as H.
  destruct (SFcompare a b) as [[] |].
  - destruct H as (_ & _ & H). 
    destruct a as [[] | [] | | [] ? ?], b as [[] | [] | | [] ? ?]; auto 6.
  - rewrite Hb. tauto.
  - rewrite Ha. tauto.
  - destruct H; congruence.
Qed.

Lemma Math_max_nan (a b : double) :
  is_nan (Math_max a b) = is_nan a || is_nan b.
Proof.
  destruct (is_nan a) eqn:Ha.
  - now destruct a.
  - destruct (is_nan b) eqn:Hb.
    + destruct b; try discriminate. now destruct a as [[] | [] | | [] ? ?].
    + now apply Math_max_key.
Qed.

Lemma Math_max_ge_l (a b : double) :
  is_nan a = false -> is_nan b = false -> dle a (Math_max a b) = true.
Proof.
  intros Ha Hb. destruct (Math_max_key a b Ha Hb) as (Hn & H).
  apply dle_key. repeat split; auto.
  unfold lexlt, lexeq in *.
  destruct H as [[[-> | [? ->]] ?] | [-> ?]]; lia.
Qed.

Lemma Math_max_ge_r (a b : double) :
  is_nan a = false -> is_nan b = false -> dle b (Math_max a b) = true.
Proof.
  intros Ha Hb. destruct (Math_max_key a b Ha Hb) as (Hn & H).
  apply dle_key. repeat split; auto.
  unfold lexlt, lexeq in *.
  destruct H as [[[-> | [? ->]] ?] | [-> ?]]; lia.
Qed.

Lemma Math_max_same (a b : double) :
  dle b a = true -> same_number (Math_max a b) a.
Proof.
  intros H. apply dle_key in H. destruct H as (Hb & Ha & H).
  destruct (Math_max_key a b Ha Hb) as (Hn & K).
  unfold same_number. rewrite deq_key. unfold lexlt, lexeq in *.
  destruct K as [[[-> | [? ->]] ?] | [-> ?]]; [left; reflexivity | right | right];
    repeat split; auto; lia.
Qed.

Lemma Math_max_absorb (c n n2 : double) :
  dle n n2 = true ->
  same_number (Math_max (Math_max c n) n2) (Math_max c n2).
Proof.
  intros H. apply dle_key in H. destruct H as (Hn & Hn2 & H).
  destruct (is_nan c) eqn:Hc.
  - left. destruct c; try discriminate. reflexivity.
  - right. apply deq_key.
    destruct (Math_max_key c n Hc Hn) as (N1 & K1).
    destruct (Math_max_key _ n2 N1 Hn2) as (N2 & K2).
    destruct (Math_max_key c n2 Hc Hn2) as (N3 & K3).
    repeat split; auto; unfold lexlt, lexeq in *.
    all: destruct K1 as [[[E1 | [? E1]] ?] | [E1 ?]];
      destruct K2 as [[[E2 | [? E2]] ?] | [E2 ?]];
      destruct K3 as [[[E3 | [? E3]] ?] | [E3 ?]];
      rewrite ?E2, ?E3; rewrite ?E1 in *; lia.
Qed.

Lemma Math_max_non_negative (a b : double) :
  non_negative a -> non_negative b -> non_negative (Math_max a b).
Proof.
  intros Ha Hb.
  destruct (Math_max_key a b (non_negative_not_nan _ Ha) (non_negative_not_nan _ Hb))
    as (_ & [[[-> | [_ ->]] _] | [-> _]]); assumption.
Qed.

Lemma Math_max_pick (a b : double) :
  non_negative a -> dle b a = true -> Math_max a b = a.
Proof.
  intros Ha H. unfold Math_max. pose proof (SFcompare_key a b) as K.
  apply dle_key in H. unfold lexlt, lexeq in *.
  destruct (SFcompare a b) as [[] |].
  - destruct a as [[] | [] | | [] ? ?]; try contradiction; reflexivity.
  - exfalso. lia.
  - reflexivity.
  - exfalso. destruct H as (? & ? & _). destruct K; congruence.
Qed.

Lemma Math_max_zero (now : double) :
  non_negative now -> Math_max dzero now = now.
Proof. now destruct now as [[] | [] | | [] ? ?]. Qed.

(** Rounding keeps a sign bit that is clear: sums and quotients of
    non-negative numbers are non-negative, never [NaN]. *)
Lemma shr_1_nonneg mrs : 0 <= shr_m mrs -> 0 <= shr_m (shr_1 mrs).
Proof.
  destruct mrs as [m r s]. cbn. destruct m as [| [p | p |] | p]; cbn; lia.
Qed.

Lemma iter_pos_nonneg p : forall mrs,
  0 <= shr_m mrs -> 0 <= shr_m (iter_pos shr_1 p mrs).
Proof.
  induction p as [p IH | p IH |]; intros mrs H; cbn.
  - apply IH, IH, shr_1_nonneg, H.
  - apply IH, IH, H.
  - apply shr_1_nonneg, H.
Qed.

Lemma shr_fexp_nonneg prec emax m e l :
  0 <= m -> 0 <= shr_m (fst (shr_fexp prec emax m e l)).
Proof.
  intros H. unfold shr_fexp, shr.
  assert (K : 0 <= shr_m (shr_record_of_loc m l)) by (now destruct l as [| []]).
  destruct (_ - e) as [| p | p]; cbn [fst]; auto using iter_pos_nonneg.
Qed.

Lemma round_nearest_even_nonneg m l : 0 <= m -> 0 <= round_nearest_even m l.
Proof.
  intros H. destruct l as [| []]; cbn; try destruct (Z.even m); lia.
Qed.

Lemma binary_round_aux_non_negative prec emax m e l :
  0 <= m -> non_negative (binary_round_aux prec emax false m e l).
Proof.
  intros H. unfold binary_round_aux.
  pose proof (shr_fexp_nonneg prec emax m e l H) as K1.
  destruct (shr_fexp prec emax m e l) as [mrs' e']. cbn [fst] in K1.
  pose proof (shr_fexp_nonneg prec emax _ e' loc_Exact
                (round_nearest_even_nonneg _ (loc_of_shr_record mrs') K1)) as K2.
  destruct (shr_fexp prec emax _ e' loc_Exact) as [mrs'' e'']. cbn [fst] in K2.
  destruct (shr_m mrs'') as [| p | p]; cbn; [exact I | | lia].
  now destruct (e'' <=? emax - prec).
Qed.

Lemma binary_round_non_negative prec emax m e :
  non_negative (binary_round prec emax false m e).
Proof.
  unfold binary_round. destruct (shl_align _ _ _) as [mz ez].
  now apply binary_round_aux_non_negative.
Qed.

Lemma double_of_Z_non_negative z : 0 <= z -> non_negative (double_of_Z z).
Proof.
  intros H. unfold double_of_Z, binary_normalize. destruct z as [| p | p]; cbn; auto.
  - apply binary_round_non_negative.
  - lia.
Qed.

Lemma dadd_non_negative a b :
  non_negative a -> non_negative b -> non_negative (dadd a b).
Proof.
  destruct a as [[] | [] | | [] ma ea], b as [[] | [] | | [] mb eb];
    try (cbn; tauto).
  intros _ _. unfold dadd, SFadd. cbn [cond_Zopp Z.add binary_normalize].
  apply binary_round_non_negative.
Qed.

Lemma ddiv_non_negative a m e :
  non_negative a -> non_negative (ddiv a (S754_finite false m e)).
Proof.
  destruct a as [[] | [] | | [] ma ea]; try (cbn; tauto).
  intros _. unfold ddiv, SFdiv, SFdiv_core_binary. cbn [xorb].
  set (e' := Z.min _ _). set (m' := match _ with Z0 => _ | _ => _ end).
  assert (Hm : 0 <= m').
  { subst m'. destruct (ea - e - e'); try lia. apply Z.shiftl_nonneg. lia. }
  pose proof (Z_div_mod m' (Z.pos m) eq_refl) as D.
  destruct (Z.div_eucl m' (Z.pos m)) as [q r].
  apply binary_round_aux_non_negative. nia.
Qed.

End Binary64.

Lemma double_24000 : double_of_Z 24000 = S754_finite false 6597069766656000 (-38).
Proof. vm_compute. reflexivity. Qed.

(** Floating-point addition rounds: 2400 and 16800 frames at 24000 Hz add up
    to 0.7999999999999999, not to the 0.8 of 19200 frames. *)
Example sum_of_durations_is_rounded :
  let buffer n := {| channels := [repeat 0%Q n]; frames := n; sampleRate := 24000 |} in
  LiveChat.total_duration [(dzero, buffer 2400%nat); (dzero, buffer 16800%nat)]
  = S754_finite false 7205759403792793 (-53) /\
  duration (buffer 19200%nat) = S754_finite false 7205759403792794 (-53).
Proof. split; vm_compute; reflexivity. Qed.

(** ** Teardown *)

Lemma append_empty (s : string) : (s ++ "")%string = s.
Proof. induction s as [| c s IH]; cbn; congruence. Qed.

Lemma iter_idempotent (A : Type) (f : A -> A) :
  (forall x, f (f x) = f x) -> forall n x, Nat.iter (S n) f x = f x.
Proof.
  intros Hf n x. induction n as [| n IH]; [reflexivity|].
  change (Nat.iter (S (S n)) f x) with (f (Nat.iter (S n) f x)).
  now rewrite IH.
Qed.

(** What one call of [stopConversation] releases: each resource that a ref
    still holds, once, in the order of the source. *)
Lemma stopConversation_trace (w : LiveChat.World) :
  LiveChat.trace (LiveChat.stopConversation w)
  = LiveChat.trace w
      ++ match LiveChat.sessionRef w with Some s => [SessionClose s] | None => [] end
      ++ match LiveChat.streamRef w with Some m => [TracksStop m] | None => [] end
      ++ match LiveChat.scriptProcessorRef w with
         | Some p => [ProcessorDisconnect p] | None => [] end
      ++ match LiveChat.audioContextRef w with
         | Some closed | None => [] | Some _ => [ContextClose] end.
Proof.
  destruct w as [? ? ? ? [s|] [m|] [[| |]|] [p|] t]; cbn;
    rewrite <- ?app_assoc, ?app_nil_r; reflexivity.
Qed.

Lemma stopConversation_twice (w : LiveChat.World) :
  LiveChat.stopConversation (LiveChat.stopConversation w) = LiveChat.stopConversation w.
Proof.
  destruct w as [? ? ? ? [s|] [m|] [[| |]|] [p|] t]; reflexivity.
Qed.

Lemma stopTranscription_trace (r : Transcriber.Render) (w : Transcriber.World) :
  Transcriber.trace (Transcriber.stopTranscription r w)
  = Transcriber.trace w
      ++ match Transcriber.sessionRef w with Some s => [SessionClose s] | None => [] end
      ++ match Transcriber.streamRef w with Some m => [TracksStop m] | None => [] end
      ++ match Transcriber.scriptProcessorRef w with
         | Some p => [ProcessorDisconnect p] | None => [] end
      ++ match Transcriber.audioContextRef w with
         | Some closed | None => [] | Some _ => [ContextClose] end.
Proof.
  destruct w as [? ? ? [s|] [m|] [[| |]|] [p|] t]; cbn;
    rewrite <- ?app_assoc, ?app_nil_r; reflexivity.
Qed.

(** A second call of [stopTranscription] releases nothing, whatever the
    renders of the two calls, and changes nothing when its closure has
    captured no text. *)
Lemma stopTranscription_twice (r1 r2 : Transcriber.Render) (t : Transcriber.World) :
  let t1 := Transcriber.stopTranscription r1 t in
  let t2 := Transcriber.stopTranscription r2 t1 in
  Transcriber.trace t2 = Transcriber.trace t1 /\
  Transcriber.sessionRef t2 = Transcriber.sessionRef t1 /\
  Transcriber.streamRef t2 = Transcriber.streamRef t1 /\
  Transcriber.scriptProcessorRef t2 = Transcriber.scriptProcessorRef t1 /\
  Transcriber.audioContextRef t2 = Transcriber.audioContextRef t1 /\
  Transcriber.isRecording t2 = Transcriber.isRecording t1 /\
  Transcriber.transcription t2 = Transcriber.transcription t1 /\
  (Transcriber.r_transcription r2 = ""%string -> t2 = t1).
Proof.
  destruct r2 as [rec2 text2].
  destruct t as [? ? ? [s|] [m|] [[| |]|] [p|] tr]; cbv zeta;
    (repeat split; [reflexivity .. |]);
    cbn [Transcriber.r_transcription]; intros ->;
    cbv -[append]; rewrite append_empty; reflexivity.
Qed.

Lemma stops_cons (r : Transcriber.Render) (rs : list Transcriber.Render)
  (w : Transcriber.World) :
  Transcriber.stops (r :: rs) w
  = Transcriber.stops rs (Transcriber.stopTranscription r w).
Proof. reflexivity. Qed.

Lemma stops_after_stop (rs : list Transcriber.Render) :
  forall (r1 : Transcriber.Render) (t : Transcriber.World),
    let t1 := Transcriber.stopTranscription r1 t in
    let tn := Transcriber.stops rs t1 in
    Transcriber.trace tn = Transcriber.trace t1 /\
    Transcriber.sessionRef tn = Transcriber.sessionRef t1 /\
    Transcriber.streamRef tn = Transcriber.streamRef t1 /\
    Transcriber.scriptProcessorRef tn = Transcriber.scriptProcessorRef t1 /\
    Transcriber.audioContextRef tn = Transcriber.audioContextRef t1 /\
    Transcriber.isRecording tn = Transcriber.isRecording t1 /\
    Transcriber.transcription tn = Transcriber.transcription t1 /\
    (Forall (fun r => Transcriber.r_transcription r = ""%string) rs -> tn = t1).
Proof.
  induction rs as [| r2 rs IH]; intros r1 t; cbv zeta.
  - cbn. repeat split; reflexivity.
  - rewrite stops_cons.
    destruct (IH r2 (Transcriber.stopTranscription r1 t))
      as (A1 & A2 & A3 & A4 & A5 & A6 & A7 & A8).
    destruct (stopTranscription_twice r1 r2 t)
      as (B1 & B2 & B3 & B4 & B5 & B6 & B7 & B8).
    repeat split; try congruence.
    intros F. inversion F as [| ? ? F1 F2]; subst.
    rewrite (A8 F2). exact (B8 F1).
Qed.

(** C9, at the failing input: in the Transcriber the stream was closed by
    the backend with ["abc"] still shown as interim text, the button
    started a new stream, and that stream reports two errors; or the button
    stops it and an error event follows.  The releases happen once, but
    each call of [stopTranscription] by the error callback appends the
    ["abc"] that the render of the start captured: the second stop is no
    no-op. *)
Theorem repeated_stop_appends_again :
  let r := Transcriber.render closed_transcription in
  let once := Transcriber.onerror r resumed_transcription in
  let twice := Transcriber.onerror r once in
  let clicked := Transcriber.click_stop resumed_transcription in
  (Transcriber.finalizedTranscription once = "abc"%string /\
   Transcriber.finalizedTranscription twice = "abcabc"%string) /\
  (Transcriber.finalizedTranscription clicked = "abc"%string /\
   Transcriber.finalizedTranscription (Transcriber.onerror r clicked) = "abcabc"%string) /\
  Transcriber.stopTranscription r (Transcriber.stopTranscription r resumed_transcription)
  <> Transcriber.stopTranscription r resumed_transcription.
Proof. repeat split. discriminate. Qed.

Example active_conversation_is :
  LiveChat.isActive active_conversation = true /\
  LiveChat.isConnecting active_conversation = false /\
  LiveChat.sessionRef active_conversation = Some 1%nat /\
  LiveChat.streamRef active_conversation = Some 7%nat /\
  LiveChat.audioContextRef active_conversation = Some running /\
  LiveChat.trace active_conversation
  = [LiveConnect 1%nat; GetUserMedia;
     CaptureWired {| bufferSize := 4096; source := 7%nat |}].
Proof. repeat split; reflexivity. Qed.

Example stop_active_three_times :
  LiveChat.trace (Nat.iter 3 LiveChat.stopConversation active_conversation)
  = LiveChat.trace active_conversation
      ++ [SessionClose 1%nat; TracksStop 7%nat;
          ProcessorDisconnect {| bufferSize := 4096; source := 7%nat |};
          ContextClose] /\
  LiveChat.trace (Nat.iter 3 LiveChat.stopConversation LiveChat.initial) = [].
Proof. split; reflexivity. Qed.

Lemma skipn_past (A : Type) (l1 l2 : list A) :
  skipn (List.length l1) (l1 ++ l2) = l2.
Proof. induction l1 as [| x l1 IH]; cbn; auto. Qed.

Example first_start :
  LiveChat.startConversation (LiveChat.render LiveChat.initial)
    (Connects 1%nat) LiveChat.initial
  = (Some first_conversation, connecting_conversation) /\
  LiveChat.isConnecting connecting_conversation = true /\
  LiveChat.isActive connecting_conversation = false.
Proof. repeat split; reflexivity. Qed.

(** ** Stop while a start is in flight *)



(** ** Microphone acquisition fails *)

(** C5, at the failing input: a start from the first render, then the
    opened callback with [getUserMedia] rejected.  The callback raises, and
    the world is left with the connecting flag set, the session kept in
    [sessionRef] and no close of the stream requested. *)
Theorem microphone_denied_leaves_connecting :
  let w' := fst (LiveChat.onopen None connecting_conversation) in
  snd (LiveChat.onopen None connecting_conversation) = Raised /\
  LiveChat.isConnecting w' = true /\
  LiveChat.isActive w' = false /\
  LiveChat.sessionRef w' = Some 1%nat /\
  LiveChat.trace w' = [LiveConnect 1%nat; GetUserMedia].
Proof. repeat split; reflexivity. Qed.

(** The [catch] of [startConversation] serves a constructor that raises in
    the body of [try], and there it does return the state to idle. *)
Lemma constructor_raises_returns_to_idle (w : LiveChat.World) :
  LiveChat.isActive w = false -> LiveChat.isConnecting w = false ->
  let w' := snd (LiveChat.startConversation (LiveChat.render w) ConstructorRaises w) in
  LiveChat.isConnecting w' = false /\ LiveChat.isActive w' = false /\
  LiveChat.sessionRef w' = LiveChat.sessionRef w.
Proof.
  intros Ha Hc. unfold LiveChat.startConversation, LiveChat.render.
  cbn [LiveChat.r_isActive LiveChat.r_isConnecting].
  rewrite Ha, Hc. cbn. rewrite Ha. repeat split; reflexivity.
Qed.

(** ** Remote close *)

(** C6, as the specification states it, fails: on the closed event of an
    active session a close of the session is requested. *)
Lemma remote_close_requests_session_close :
  ~ (forall s,
        ~ In (SessionClose s)
             (LiveChat.effects_since active_conversation
                (LiveChat.onclose active_conversation))).
Proof. intros H. apply (H 1%nat). cbv. auto. Qed.

(** C6, amended.  On the closed event of a session whose refs hold the
    session, the stream, the capture node and an open audio context, the
    handler runs [stopConversation] whole: it requests the close of the
    session, then stops the tracks, disconnects the node and closes the
    context; the refs are cleared and the state is idle. *)
Theorem remote_close_teardown (w : LiveChat.World)
  (session : Session) (stream : MediaStream) (node : ScriptProcessorNode) :
  LiveChat.sessionRef w = Some session ->
  LiveChat.streamRef w = Some stream ->
  LiveChat.scriptProcessorRef w = Some node ->
  LiveChat.audioContextRef w = Some running ->
  let w' := LiveChat.onclose w in
  LiveChat.effects_since w w'
  = [SessionClose session; TracksStop stream; ProcessorDisconnect node; ContextClose] /\
  LiveChat.sessionRef w' = None /\ LiveChat.streamRef w' = None /\
  LiveChat.scriptProcessorRef w' = None /\
  LiveChat.audioContextRef w' = Some closed /\
  LiveChat.isActive w' = false /\ LiveChat.isConnecting w' = false.
Proof.
  intros Hs Hm Hp Ha. cbv zeta. unfold LiveChat.onclose, LiveChat.effects_since.
  rewrite stopConversation_trace, Hs, Hm, Hp, Ha, skipn_past.
  destruct w as [? ? ? ? s m a p t]. cbn in Hs, Hm, Hp, Ha. subst.
  repeat split; reflexivity.
Qed.

Lemma remote_close_teardown_witness :
  LiveChat.effects_since active_conversation (LiveChat.onclose active_conversation)
  = [SessionClose 1%nat; TracksStop 7%nat;
     ProcessorDisconnect {| bufferSize := 4096; source := 7%nat |}; ContextClose].
Proof.
  apply (remote_close_teardown active_conversation 1%nat 7%nat
           {| bufferSize := 4096; source := 7%nat |}); reflexivity.
Defined.

(** ** Start while active or connecting *)

(** The guard of [startConversation]: a start of a render that sees the
    session active or connecting returns at once, the world untouched. *)
Lemma startConversation_guard (w : LiveChat.World) (o : StartOutcome) :
  LiveChat.isActive w = true \/ LiveChat.isConnecting w = true ->
  LiveChat.startConversation (LiveChat.render w) o w = (None, w).
Proof.
  intros H. unfold LiveChat.startConversation, LiveChat.render.
  cbn [LiveChat.r_isActive LiveChat.r_isConnecting].
  destruct H as [-> | ->]; [reflexivity|].
  now rewrite orb_true_r.
Qed.

(** The guard of [startTranscription] covers a session that records. *)
Lemma startTranscription_guard (w : Transcriber.World) (o : StartOutcome) :
  Transcriber.isRecording w = true ->
  Transcriber.startTranscription (Transcriber.render w) o w = (None, w).
Proof.
  intros H. unfold Transcriber.startTranscription, Transcriber.render.
  cbn [Transcriber.r_isRecording]. now rewrite H.
Qed.

(** C8, at the failing input: in the Transcriber a start is in flight (the
    stream was requested, the opened callback has not run, so the recording
    flag is still unset) and start is called again.  The guard lets the call
    pass: a second stream is opened and takes the place of the first in
    [sessionRef]. *)
Theorem second_start_in_flight_opens_second_stream :
  let w1 := snd (Transcriber.startTranscription
                   (Transcriber.render Transcriber.initial) (Connects 1%nat)
                   Transcriber.initial) in
  let w2 := snd (Transcriber.startTranscription
                   (Transcriber.render w1) (Connects 2%nat) w1) in
  Transcriber.isRecording w1 = false /\
  Transcriber.sessionRef w1 = Some 1%nat /\
  Transcriber.trace w2 = [LiveConnect 1%nat; LiveConnect 2%nat] /\
  Transcriber.sessionRef w2 = Some 2%nat.
Proof. repeat split; reflexivity. Qed.

(** ** Transcript accumulation *)

(** What [onmessage] of LiveChat does at a turn-complete message: the turn
    it appends is the interim buffer of its scope. *)
Lemma turn_complete_appends_scope (c : LiveChat.Conversation) (now : double)
  (w : LiveChat.World) :
  let w' := snd (fst (LiveChat.onmessage c now turn_complete w)) in
  LiveChat.transcription w'
  = LiveChat.transcription w ++ [LiveChat.r_currentInterim (LiveChat.scope c)] /\
  LiveChat.currentInterim w' = LiveChat.empty_turn.
Proof. split; reflexivity. Qed.

Lemma append_assoc (a b c : string) : ((a ++ b) ++ c)%string = (a ++ b ++ c)%string.
Proof. induction a as [| x a IH]; cbn; congruence. Qed.

Lemma deliver_cons (c : LiveChat.Conversation) (w : LiveChat.World) (now : double)
  (m : LiveServerMessage) (ms : list (double * LiveServerMessage)) :
  LiveChat.deliver c w ((now, m) :: ms)
  = LiveChat.deliver (fst (fst (LiveChat.onmessage c now m w)))
      (snd (fst (LiveChat.onmessage c now m w))) ms.
Proof.
  cbn [LiveChat.deliver]. now destruct (LiveChat.onmessage c now m w) as [[c1 w1] k].
Qed.

Lemma onmessage_partial (d : bool * string) (c : LiveChat.Conversation) (now : double)
  (w : LiveChat.World) :
  LiveChat.onmessage c now (partial_message d) w
  = (c,
     LiveChat.setCurrentInterim
       (fun prev =>
          if fst d
          then {| LiveChat.user := (LiveChat.user prev ++ snd d)%string;
                  LiveChat.model := LiveChat.model prev |}
          else {| LiveChat.user := LiveChat.user prev;
                  LiveChat.model := (LiveChat.model prev ++ snd d)%string |}) w,
     Returned).
Proof. destruct d as [[|] s]; reflexivity. Qed.

(** The interim buffer does accumulate: after any run of partial
    transcriptions each side holds its deltas in arrival order, and the log
    is untouched. *)
Lemma partials_accumulate (ds : list (bool * string)) (c : LiveChat.Conversation)
  (w : LiveChat.World) :
  let w' := snd (LiveChat.deliver c w (map (fun d => (dzero, partial_message d)) ds)) in
  LiveChat.currentInterim w'
  = {| LiveChat.user := (LiveChat.user (LiveChat.currentInterim w) ++ said true ds)%string;
       LiveChat.model := (LiveChat.model (LiveChat.currentInterim w) ++ said false ds)%string |}
  /\ LiveChat.transcription w' = LiveChat.transcription w.
Proof.
  cbv zeta. revert w. induction ds as [| d ds IH]; intros w.
  - cbn. rewrite !append_empty. now destruct (LiveChat.currentInterim w).
  - cbn [map]. rewrite deliver_cons, onmessage_partial. cbn [fst snd].
    destruct (IH (LiveChat.setCurrentInterim
       (fun prev =>
          if fst d
          then {| LiveChat.user := (LiveChat.user prev ++ snd d)%string;
                  LiveChat.model := LiveChat.model prev |}
          else {| LiveChat.user := LiveChat.user prev;
                  LiveChat.model := (LiveChat.model prev ++ snd d)%string |}) w))
      as [E1 E2].
    rewrite E1, E2. destruct d as [[|] s]; cbn; now rewrite append_assoc.
Qed.

(** C2, at the failing input: the first conversation of a component, the
    partial transcriptions ["Hel"] and ["lo"] of the input, then turn
    complete.  The interim buffer holds ["Hello"] before the turn completes
    and is empty after it, but the turn appended to the log is the empty
    interim buffer that the render of the start saw, not ["Hello"].  The
    same holds for the text that the Transcriber finalizes. *)
Theorem turn_complete_appends_stale_interim :
  let deltas := [(dzero, partial_input "Hel"); (dzero, partial_input "lo")] in
  let before := snd (LiveChat.deliver first_conversation active_conversation deltas) in
  let after :=
    snd (LiveChat.deliver first_conversation active_conversation
           (deltas ++ [(dzero, turn_complete)])) in
  LiveChat.currentInterim before = {| LiveChat.user := "Hello"; LiveChat.model := "" |} /\
  LiveChat.transcription after = [{| LiveChat.user := ""; LiveChat.model := "" |}] /\
  LiveChat.currentInterim after = LiveChat.empty_turn /\
  let r := Transcriber.render Transcriber.initial in
  let t :=
    Transcriber.onmessage r turn_complete
      (Transcriber.onmessage r (partial_input "lo")
         (Transcriber.onmessage r (partial_input "Hel") Transcriber.initial)) in
  Transcriber.finalizedTranscription t = ""%string /\
  Transcriber.transcription t = ""%string.
Proof. repeat split; reflexivity. Qed.

(** ** Teardown and the interim buffer *)

(** A conversation that is active and has heard ["Hel"]. *)
Example heard_Hel :
  let w := snd (fst (LiveChat.onmessage first_conversation dzero (partial_input "Hel")
                       active_conversation)) in
  LiveChat.currentInterim w = {| LiveChat.user := "Hel"; LiveChat.model := "" |} /\
  LiveChat.transcription w = [].
Proof. split; reflexivity. Qed.

(** C4, as the specification states it, fails: LiveChat is stopped with
    ["Hel"] in the interim buffer.  No turn is appended to the log and the
    buffer is not cleared. *)
Lemma stop_does_not_flush_interim :
  let w := snd (fst (LiveChat.onmessage first_conversation dzero (partial_input "Hel")
                       active_conversation)) in
  let w' := LiveChat.stopConversation w in
  ~ (LiveChat.transcription w' = LiveChat.transcription w ++ [LiveChat.currentInterim w] /\
     LiveChat.currentInterim w' = LiveChat.empty_turn).
Proof. cbv. intros (H & _). discriminate H. Qed.

(** C4, amended.  In the Transcriber a stop from the button appends the
    interim text to the finalized transcript once and clears the interim
    text, with no turn-complete message needed.  In LiveChat no teardown
    path (stop, error, remote close, unmount) touches the log or the interim
    buffer: the partial content stays in the interim buffer. *)
Theorem teardown_and_interim (t : Transcriber.World) (w : LiveChat.World) :
  (Transcriber.finalizedTranscription (Transcriber.click_stop t)
   = (Transcriber.finalizedTranscription t ++ Transcriber.transcription t)%string /\
   Transcriber.transcription (Transcriber.click_stop t) = ""%string) /\
  (LiveChat.transcription (LiveChat.stopConversation w) = LiveChat.transcription w /\
   LiveChat.currentInterim (LiveChat.stopConversation w) = LiveChat.currentInterim w) /\
  (LiveChat.transcription (LiveChat.onerror w) = LiveChat.transcription w /\
   LiveChat.currentInterim (LiveChat.onerror w) = LiveChat.currentInterim w) /\
  (LiveChat.transcription (LiveChat.onclose w) = LiveChat.transcription w /\
   LiveChat.currentInterim (LiveChat.onclose w) = LiveChat.currentInterim w) /\
  (LiveChat.transcription (LiveChat.unmount w) = LiveChat.transcription w /\
   LiveChat.currentInterim (LiveChat.unmount w) = LiveChat.currentInterim w).
Proof.
  split.
  - destruct t as [? ? ? [s|] [m|] [[| |]|] [p|] tr]; split; reflexivity.
  - destruct w as [? ? ? ? [s|] [m|] [[| |]|] [p|] tr]; repeat split; reflexivity.
Qed.

(** ** Playback scheduling *)

Section Playback.
Import LiveChat.

Lemma scheduled_app (l1 l2 : list Effect) :
  scheduled (l1 ++ l2) = scheduled l1 ++ scheduled l2.
Proof.
  induction l1 as [| e l1 IH]; [reflexivity|].
  destruct e; cbn [app scheduled]; now rewrite ?IH.
Qed.

Lemma effects_since_app (w w' : World) (l : list Effect) :
  trace w' = trace w ++ l -> effects_since w w' = l.
Proof. intros E. unfold effects_since. now rewrite E, skipn_past. Qed.

(** The part of [onmessage] before the audio payload leaves the effects and
    the refs alone; the payload decides the rest. *)
Lemma onmessage_cases (c : Conversation) (now : double) (m : LiveServerMessage)
  (w : World) :
  exists w1,
    trace w1 = trace w /\ sessionRef w1 = sessionRef w /\
    streamRef w1 = streamRef w /\ isActive w1 = isActive w /\
    onmessage c now m w =
      match base64Audio m with
      | Some b =>
          if truthy b then
            match payload_buffer b with
            | Some buf =>
                ({| scope := scope c;
                    nextStartTime :=
                      dadd (Math_max (nextStartTime c) now) (duration buf) |},
                 emit (SourceStart (Math_max (nextStartTime c) now) buf) w1, Returned)
            | None =>
                ({| scope := scope c; nextStartTime := Math_max (nextStartTime c) now |},
                 w1, Raised)
            end
          else (c, w1, Returned)
      | None => (c, w1, Returned)
      end.
Proof.
  destruct m as [[[[i|] [o|] [|] mt]|]];
    (eexists; split; [|split; [|split; [|split]]]; cycle 4;
     [ unfold onmessage, payload_buffer; cbv zeta;
       cbn [serverContent inputTranscription outputTranscription turnComplete];
       destruct (base64Audio _) as [b|]; [|reflexivity];
       destruct (truthy b); [|reflexivity];
       destruct (decode b) as [bytes|]; [|reflexivity];
       destruct (decodeAudioData bytes 24000 1); reflexivity
     | reflexivity .. ]).
Qed.

(** The buffer of a payload has the rate that [onmessage] passes, so its
    duration is a non-negative number. *)
Lemma payload_buffer_rate (b : string) (buf : AudioBuffer) :
  payload_buffer b = Some buf -> sampleRate buf = 24000%positive.
Proof.
  unfold payload_buffer, decodeAudioData.
  destruct (decode b) as [bytes|]; [|discriminate].
  destruct (Int16Array bytes) as [l|]; [|discriminate].
  destruct (_ || _); [discriminate|].
  intros E. injection E as <-. reflexivity.
Qed.

Lemma payload_duration_non_negative (b : string) (buf : AudioBuffer) :
  payload_buffer b = Some buf -> non_negative (duration buf).
Proof.
  intros H. unfold duration. rewrite (payload_buffer_rate b buf H), double_24000.
  apply ddiv_non_negative, double_of_Z_non_negative, Nat2Z.is_nonneg.
Qed.

Lemma chain_weaken (lo lo' : double) (l : list (double * AudioBuffer)) :
  dle lo' lo = true -> chain lo l -> chain lo' l.
Proof.
  intros Hlo. destruct l as [| [start b] rest]; cbn [chain]; [trivial|].
  intros [H Hrest]. split; [now apply dle_trans with lo | exact Hrest].
Qed.

Lemma chain_back_to_back (l : list (double * AudioBuffer)) (lo : double) :
  chain lo l -> back_to_back l.
Proof.
  revert lo. induction l as [| [start b] rest IH]; intros lo; cbn [chain back_to_back].
  - trivial.
  - intros [_ Hrest]. split; [|now apply IH with (dadd start (duration b))].
    destruct rest as [| [start2 b2] rest]; [trivial|].
    cbn [chain] in Hrest. tauto.
Qed.

(** Over messages that arrive at valid clocks, the buffers started form a
    chain after the cursor. *)
Lemma deliver_chain (ms : list (double * LiveServerMessage)) :
  forall (c : Conversation) (w : World),
    non_negative (nextStartTime c) -> clock_valid ms ->
    exists new,
      trace (snd (deliver c w ms)) = trace w ++ new /\
      chain (nextStartTime c) (scheduled new).
Proof.
  induction ms as [| [now m] ms IH]; intros c w Hc Hv.
  - exists []. cbn. rewrite app_nil_r. split; [reflexivity | exact I].
  - rewrite deliver_cons. inversion Hv as [| ? ? Hnow Hrest]; subst.
    cbn [fst] in Hnow.
    pose proof (Math_max_non_negative _ _ Hc Hnow) as Hmax.
    pose proof (Math_max_ge_l _ _ (non_negative_not_nan _ Hc)
                  (non_negative_not_nan _ Hnow)) as Hge.
    specialize (IH (fst (fst (onmessage c now m w))) (snd (fst (onmessage c now m w)))).
    revert IH.
    destruct (onmessage_cases c now m w) as (w1 & Ht & _ & _ & _ & E). rewrite E.
    destruct (base64Audio m) as [b|];
      [destruct (truthy b); [destruct (payload_buffer b) as [buf|] eqn:Hp|]|];
      cbn [fst snd nextStartTime trace emit]; intros IH.
    + destruct IH as (new2 & E2 & C2);
        [ apply dadd_non_negative;
          [exact Hmax | exact (payload_duration_non_negative b buf Hp)]
        | exact Hrest |].
      exists (SourceStart (Math_max (nextStartTime c) now) buf :: new2). split.
      * now rewrite E2, Ht, <- app_assoc.
      * cbn [scheduled chain]. split; assumption.
    + destruct IH as (new2 & E2 & C2); [exact Hmax | exact Hrest |].
      exists new2. split; [now rewrite E2, Ht|].
      now apply chain_weaken with (Math_max (nextStartTime c) now).
    + destruct IH as (new2 & E2 & C2); [exact Hc | exact Hrest |].
      exists new2. split; [now rewrite E2, Ht | exact C2].
    + destruct IH as (new2 & E2 & C2); [exact Hc | exact Hrest |].
      exists new2. split; [now rewrite E2, Ht | exact C2].
Qed.

(** With no underrun the cursor is advanced by the durations only. *)
Lemma deliver_total (ms : list (double * LiveServerMessage)) :
  forall (c : Conversation) (w : World),
    non_negative (nextStartTime c) -> no_underrun c w ms ->
    exists new,
      trace (snd (deliver c w ms)) = trace w ++ new /\
      nextStartTime (fst (deliver c w ms)) = advance (nextStartTime c) (scheduled new).
Proof.
  induction ms as [| [now m] ms IH]; intros c w Hc.
  - intros _. exists []. cbn. rewrite app_nil_r. split; reflexivity.
  - cbn [no_underrun]. intros [Hnow Hrest]. rewrite deliver_cons.
    specialize (IH (fst (fst (onmessage c now m w))) (snd (fst (onmessage c now m w)))).
    revert IH Hrest Hnow. unfold has_audio.
    destruct (onmessage_cases c now m w) as (w1 & Ht & _ & _ & _ & E). rewrite E.
    destruct (base64Audio m) as [b|];
      [destruct (truthy b); [destruct (payload_buffer b) as [buf|] eqn:Hp|]|];
      cbn [fst snd nextStartTime trace emit]; intros IH Hrest Hnow.
    + rewrite (Math_max_pick _ _ Hc (Hnow eq_refl)) in *.
      destruct IH as (new2 & E2 & S2);
        [ apply dadd_non_negative;
          [exact Hc | exact (payload_duration_non_negative b buf Hp)]
        | exact Hrest |].
      exists (SourceStart (nextStartTime c) buf :: new2). split.
      * now rewrite E2, Ht, <- app_assoc.
      * exact S2.
    + rewrite (Math_max_pick _ _ Hc (Hnow eq_refl)) in *.
      destruct IH as (new2 & E2 & S2); [exact Hc | exact Hrest |].
      exists new2. split; [now rewrite E2, Ht | exact S2].
    + destruct IH as (new2 & E2 & S2); [exact Hc | exact Hrest |].
      exists new2. split; [now rewrite E2, Ht | exact S2].
    + destruct IH as (new2 & E2 & S2); [exact Hc | exact Hrest |].
      exists new2. split; [now rewrite E2, Ht | exact S2].
Qed.

(** C3. The cursor [nextStartTime] of a conversation starts at zero, the
    clock of its new output context, so that the first buffer starts at the
    clock of its arrival.  A chunk that decodes to a buffer is started at
    the maximum of the cursor and the clock on arrival, and the cursor moves
    to that start plus the duration of the buffer, the sum being the
    rounded one of the program.  Hence, over any messages delivered to the
    conversation at valid clocks, each buffer starts no earlier than the
    start of the one before plus its duration; when no chunk arrives with
    the clock past the cursor, the cursor is the sum of the durations of
    the buffers started so far, added in the order of play; and when only
    the first chunk does, at clock [now1], the cursor is [now1] advanced by
    those durations. *)
Theorem playback_schedule (r : Render) (s : Session) (w0 w0' w : World)
  (c : Conversation) (ms : list (double * LiveServerMessage)) :
  startConversation r (Connects s) w0 = (Some c, w0') ->
  let c' := fst (deliver c w ms) in
  let played := scheduled (effects_since w (snd (deliver c w ms))) in
  (nextStartTime c = dzero /\
   forall now m b buf,
     non_negative now ->
     base64Audio m = Some b -> truthy b = true -> payload_buffer b = Some buf ->
     scheduled (effects_since w (snd (fst (onmessage c now m w)))) = [(now, buf)]) /\
  (forall c1 now m w1 b buf,
      base64Audio m = Some b -> truthy b = true -> payload_buffer b = Some buf ->
      scheduled (effects_since w1 (snd (fst (onmessage c1 now m w1))))
      = [(Math_max (nextStartTime c1) now, buf)] /\
      nextStartTime (fst (fst (onmessage c1 now m w1)))
      = dadd (Math_max (nextStartTime c1) now) (duration buf)) /\
  (clock_valid ms -> back_to_back played) /\
  (no_underrun c w ms -> nextStartTime c' = total_duration played) /\
  (forall now1 m1 rest,
      ms = (now1, m1) :: rest -> non_negative now1 -> has_audio m1 = true ->
      no_underrun (fst (fst (onmessage c now1 m1 w)))
                  (snd (fst (onmessage c now1 m1 w))) rest ->
      nextStartTime c' = advance now1 played).
Proof.
  intros Hstart. cbv zeta.
  assert (Hc : nextStartTime c = dzero).
  { unfold startConversation in Hstart.
    destruct (r_isActive r || r_isConnecting r); [discriminate|].
    now inversion Hstart. }
  assert (Hrule : forall c1 now m w1 b buf,
      base64Audio m = Some b -> truthy b = true -> payload_buffer b = Some buf ->
      scheduled (effects_since w1 (snd (fst (onmessage c1 now m w1))))
      = [(Math_max (nextStartTime c1) now, buf)] /\
      nextStartTime (fst (fst (onmessage c1 now m w1)))
      = dadd (Math_max (nextStartTime c1) now) (duration buf)).
  { intros c1 now m w1 b buf Hb Ht Hp.
    destruct (onmessage_cases c1 now m w1) as (w2 & Htr & _ & _ & _ & E).
    rewrite E, Hb, Ht, Hp. cbn [fst snd nextStartTime].
    split; [|reflexivity].
    rewrite (effects_since_app w1 _ [SourceStart (Math_max (nextStartTime c1) now) buf]);
      [reflexivity | cbn; now rewrite Htr]. }
  assert (Hnn : non_negative (nextStartTime c)) by (rewrite Hc; exact I).
  split; [split; [exact Hc|] | split; [exact Hrule | split; [|split]]].
  - intros now m b buf Hnow Hb Ht Hp.
    destruct (Hrule c now m w b buf Hb Ht Hp) as [-> _].
    now rewrite Hc, Math_max_zero.
  - intros Hv. destruct (deliver_chain ms c w Hnn Hv) as (new & E & C).
    rewrite (effects_since_app _ _ _ E). eapply chain_back_to_back, C.
  - intros Hno. destruct (deliver_total ms c w Hnn Hno) as (new & E & S).
    rewrite (effects_since_app _ _ _ E), S, Hc. reflexivity.
  - intros now1 m1 rest -> Hnow Ha Hno. rewrite deliver_cons.
    revert Hno. unfold has_audio in Ha.
    destruct (onmessage_cases c now1 m1 w) as (w1 & Ht & _ & _ & _ & E). rewrite E.
    destruct (base64Audio m1) as [b|]; [|discriminate]. rewrite Ha.
    rewrite Hc, (Math_max_zero now1 Hnow).
    destruct (payload_buffer b) as [buf|] eqn:Hp;
      cbn [fst snd nextStartTime]; intros Hno.
    + destruct (deliver_total rest
                  {| scope := scope c; nextStartTime := dadd now1 (duration buf) |}
                  (emit (SourceStart now1 buf) w1)
                  (dadd_non_negative _ _ Hnow (payload_duration_non_negative b buf Hp))
                  Hno) as (new & E2 & S).
      cbn [nextStartTime trace emit] in E2, S.
      rewrite (effects_since_app w _ (SourceStart now1 buf :: new));
        [exact S | now rewrite E2, Ht, <- app_assoc].
    + destruct (deliver_total rest {| scope := scope c; nextStartTime := now1 |} w1
                  Hnow Hno) as (new & E2 & S).
      cbn [nextStartTime] in S.
      rewrite (effects_since_app w _ new); [exact S | now rewrite E2, Ht].
Qed.

Lemma playback_schedule_witness :
  let tick := ddiv (double_of_Z 1) (double_of_Z 24000) in
  let one := double_of_Z 1 in
  let ms := [(dzero, audio_chunk "AAAAAA=="); (tick, audio_chunk "AAA=")] in
  let late := [(one, audio_chunk "AAAAAA=="); (one, audio_chunk "AAA=")] in
  (clock_valid ms /\ no_underrun first_conversation active_conversation ms /\
   back_to_back
     (scheduled (effects_since active_conversation
                   (snd (deliver first_conversation active_conversation ms)))) /\
   nextStartTime (fst (deliver first_conversation active_conversation ms))
   = dadd (ddiv (double_of_Z 2) (double_of_Z 24000)) tick) /\
  nextStartTime (fst (deliver first_conversation active_conversation late))
  = dadd (dadd one (ddiv (double_of_Z 2) (double_of_Z 24000))) tick.
Proof.
  cbv zeta.
  set (tick := ddiv (double_of_Z 1) (double_of_Z 24000)).
  set (one := double_of_Z 1).
  assert (V : clock_valid [(dzero, audio_chunk "AAAAAA=="); (tick, audio_chunk "AAA=")]).
  { repeat constructor. }
  assert (H : no_underrun first_conversation active_conversation
                [(dzero, audio_chunk "AAAAAA=="); (tick, audio_chunk "AAA=")]).
  { cbn [no_underrun]. repeat split; intros _; vm_compute; reflexivity. }
  split.
  - destruct (playback_schedule (render initial) 1%nat initial connecting_conversation
                active_conversation first_conversation
                [(dzero, audio_chunk "AAAAAA=="); (tick, audio_chunk "AAA=")] eq_refl)
      as (_ & _ & Hb & Hsum & _).
    split; [exact V|]. split; [exact H|]. split; [exact (Hb V)|].
    rewrite (Hsum H). vm_compute. reflexivity.
  - destruct (playback_schedule (render initial) 1%nat initial connecting_conversation
                active_conversation first_conversation
                [(one, audio_chunk "AAAAAA=="); (one, audio_chunk "AAA=")] eq_refl)
      as (_ & _ & _ & _ & Hlate).
    rewrite (Hlate one (audio_chunk "AAAAAA==") [(one, audio_chunk "AAA=")] eq_refl).
    + vm_compute. reflexivity.
    + exact I.
    + reflexivity.
    + cbn [no_underrun]. repeat split; intros _; vm_compute; reflexivity.
Defined.

(** Scenario B of the specification: a chunk of 0.5 s arrives at clock 0.0
    and a chunk of 0.3 s at clock 0.1.  The second buffer starts at 0.5 and
    the cursor ends at 0.8. *)
Example scenario_B :
  let zeros n := string_of_list_ascii (repeat "A"%char n) in
  let half_second := audio_chunk (zeros 32000%nat) in
  let three_tenths := audio_chunk (zeros 19200%nat) in
  let number n d := ddiv (double_of_Z (Z.of_N n)) (double_of_Z (Z.of_N d)) in
  let ms := [(dzero, half_second); (number 1 10, three_tenths)] in
  let played :=
    scheduled (effects_since active_conversation
                 (snd (deliver first_conversation active_conversation ms))) in
  map (fun sb => duration (snd sb)) played = [number 1 2; number 3 10] /\
  map fst played = [dzero; number 1 2] /\
  nextStartTime (fst (deliver first_conversation active_conversation ms)) = number 8 10.
Proof. vm_compute. repeat constructor. Qed.

(** ** A chunk that does not decode *)

Example payloads_that_do_not_decode :
  payload_buffer "!" = None /\
  payload_buffer "AAAAA" = None /\
  payload_buffer "AAAA" = None /\
  payload_buffer " " = None /\
  (exists buf, payload_buffer "AAA=" = Some buf /\ frames buf = 1%nat).
Proof. repeat split; try reflexivity. eexists. split; reflexivity. Qed.

(** C7, as the specification states it, fails: with the cursor at 0 and the
    clock at 1, a chunk whose payload is not base64 makes the handler raise
    and leaves the cursor at 1. *)
Lemma malformed_chunk_moves_cursor :
  let r := onmessage first_conversation (double_of_Z 1) (audio_chunk "!")
             active_conversation in
  ~ same_number (nextStartTime (fst (fst r))) (nextStartTime first_conversation).
Proof. vm_compute. intros [H | H]; discriminate H. Qed.

(** C7, amended.  A chunk whose payload fails to decode makes the handler
    raise after it has set the cursor to the maximum of the cursor and the
    clock.  Nothing is started for the chunk, the session, the stream and
    the active flag stay as they were, and the cursor is not advanced by a
    duration: it is unchanged when the clock has not passed it.  A later
    chunk that decodes is started and is given the start it would have had
    without the failed chunk. *)
Theorem malformed_chunk_dropped (c : Conversation) (now : double) (m : LiveServerMessage)
  (w : World) (b : string) :
  base64Audio m = Some b -> truthy b = true -> payload_buffer b = None ->
  let c' := fst (fst (onmessage c now m w)) in
  let w' := snd (fst (onmessage c now m w)) in
  snd (onmessage c now m w) = Raised /\
  effects_since w w' = [] /\
  (sessionRef w' = sessionRef w /\ streamRef w' = streamRef w /\
   isActive w' = isActive w) /\
  nextStartTime c' = Math_max (nextStartTime c) now /\
  (dle now (nextStartTime c) = true ->
   same_number (nextStartTime c') (nextStartTime c)) /\
  (forall now2 m2 b2 buf2,
      dle now now2 = true ->
      base64Audio m2 = Some b2 -> truthy b2 = true -> payload_buffer b2 = Some buf2 ->
      snd (onmessage c' now2 m2 w') = Returned /\
      scheduled (effects_since w' (snd (fst (onmessage c' now2 m2 w'))))
      = [(Math_max (nextStartTime c') now2, buf2)] /\
      same_number (Math_max (nextStartTime c') now2) (Math_max (nextStartTime c) now2)).
Proof.
  intros Hb Ht Hp. cbv zeta.
  destruct (onmessage_cases c now m w) as (w1 & Htr & Hs & Hm & Ha & E).
  rewrite E, Hb, Ht, Hp. cbn [fst snd nextStartTime].
  repeat split; try assumption.
  - apply effects_since_app. now rewrite app_nil_r.
  - apply Math_max_same.
  - destruct (onmessage_cases {| scope := scope c;
                                 nextStartTime := Math_max (nextStartTime c) now |}
                now2 m2 w1) as (w2 & _ & _ & _ & _ & E2).
    rewrite E2, H0, H1, H2. reflexivity.
  - destruct (onmessage_cases {| scope := scope c;
                                 nextStartTime := Math_max (nextStartTime c) now |}
                now2 m2 w1) as (w2 & Htr2 & _ & _ & _ & E2).
    rewrite E2, H0, H1, H2. cbn [fst snd nextStartTime].
    rewrite (effects_since_app w1 _
               [SourceStart (Math_max (Math_max (nextStartTime c) now) now2) buf2]);
      [reflexivity | cbn; now rewrite Htr2].
  - now apply Math_max_absorb.
Qed.

Lemma malformed_chunk_dropped_witness :
  let r := onmessage first_conversation (double_of_Z 1) (audio_chunk "!")
             active_conversation in
  snd r = Raised /\ effects_since active_conversation (snd (fst r)) = [].
Proof.
  destruct (malformed_chunk_dropped first_conversation (double_of_Z 1) (audio_chunk "!")
              active_conversation "!" eq_refl eq_refl eq_refl) as (H1 & H2 & _).
  split; [exact H1 | exact H2].
Defined.

End Playback.

(** * Further properties of the code *)

(** ** More on the base64 helpers *)

Section WireText.
Import Base64.

Lemma string_of_list_length (l : list ascii) :
  String.length (string_of_list_ascii l) = List.length l.
Proof. induction l as [| c l IH]; cbn; congruence. Qed.

Lemma btoa_chars_size s :
  List.length (btoa_chars s) = (4 * ((List.length s + 2) / 3))%nat.
Proof.
  induction s as [| a | a b | a b c rest IH] using list_ind3;
    cbn [btoa_chars List.length]; try reflexivity.
  rewrite IH.
  replace (S (S (S (List.length rest))) + 2)%nat
    with ((List.length rest + 2) + 1 * 3)%nat by lia.
  rewrite Nat.div_add by lia. lia.
Qed.

Lemma btoa_chars_alphabet s :
  Forall (fun c => b64val c <> None \/ c = pad) (btoa_chars s).
Proof.
  rewrite btoa_chars_split. apply Forall_app. split.
  - apply Forall_map. eapply Forall_impl; [|apply btoa_sextets_bound].
    intros v Hv. left. now rewrite (b64val_b64char v Hv).
  - destruct (btoa_padding_cases s) as [-> | [-> | ->]]; repeat constructor; now right.
Qed.

Lemma encode_as_btoa (b : list byte) :
  encode b = btoa (string_of_list_ascii (map ascii_of_byte b)).
Proof. unfold encode. now rewrite binary_string. Qed.

Lemma strip_padding_keeps (d : list ascii) (c : ascii) :
  In c d -> is_pad c = false -> In c (strip_padding d).
Proof.
  intros Hin Hc. unfold strip_padding. rewrite <- !rev_alt.
  apply in_rev in Hin.
  destruct (rev d) as [| p [| q r]] eqn:E.
  - destruct Hin.
  - destruct (is_pad p) eqn:Hp.
    + destruct Hin as [-> | []]. congruence.
    + apply in_rev. now rewrite E.
  - destruct (is_pad p) eqn:Hp.
    + destruct Hin as [-> | Hin]; [congruence|].
      destruct (is_pad q) eqn:Hq.
      * destruct Hin as [-> | Hin]; [congruence|].
        rewrite <- rev_alt. now apply in_rev in Hin.
      * rewrite <- rev_alt. now apply in_rev in Hin.
    + apply in_rev. now rewrite E.
Qed.

Lemma sextets_foreign (d : list ascii) (c : ascii) :
  In c d -> b64val c = None -> sextets d = None.
Proof.
  induction d as [| x d IH]; intros Hin Hc; [destruct Hin|].
  cbn [sextets]. destruct Hin as [-> | Hin].
  - now rewrite Hc.
  - rewrite (IH Hin Hc). now destruct (b64val x).
Qed.

End WireText.

(** X1. The wire text of [encode]: for [n] bytes it has [4 * ceil (n / 3)]
    characters, each of the base64 alphabet or the padding [=]. *)
Theorem encode_wire_text (b : list byte) :
  String.length (encode b) = (4 * ((List.length b + 2) / 3))%nat /\
  Forall (fun c => Base64.b64val c <> None \/ c = Base64.pad)
         (list_ascii_of_string (encode b)).
Proof.
  rewrite encode_as_btoa. unfold Base64.btoa.
  rewrite !list_ascii_of_string_of_list_ascii.
  split.
  - now rewrite string_of_list_length, btoa_chars_size, length_map.
  - apply btoa_chars_alphabet.
Qed.

(** X2. [decode] raises on a text that holds a character which is neither
    of the base64 alphabet, nor white space, nor [=], wherever it stands. *)
Theorem decode_rejects_foreign_character (s : string) (c : ascii) :
  In c (list_ascii_of_string s) ->
  Base64.is_ascii_whitespace c = false ->
  Base64.is_pad c = false ->
  Base64.b64val c = None ->
  decode s = None.
Proof.
  intros Hin Hws Hpad Hval. unfold decode, Base64.atob, Base64.atob_chars.
  cbv zeta.
  set (d1 := filter (fun c => negb (Base64.is_ascii_whitespace c))
                    (list_ascii_of_string s)).
  assert (H1 : In c d1).
  { apply filter_In. split; [exact Hin | now rewrite Hws]. }
  set (d2 := if (N.of_nat (List.length d1) mod 4 =? 0)
             then Base64.strip_padding d1 else d1).
  assert (H2 : In c d2).
  { subst d2. destruct (_ =? 0); [now apply strip_padding_keeps | exact H1]. }
  rewrite (sextets_foreign d2 c H2 Hval).
  now destruct (_ =? 1).
Qed.

Lemma decode_rejects_foreign_character_witness : decode "TW-u" = None.
Proof.
  apply (decode_rejects_foreign_character "TW-u" "-"%char); cbn; auto.
Defined.

(** ** Decoded audio *)

(** Induction on a list two elements at a time, as [Int16Array] reads it. *)
Lemma list_ind2 (A : Type) (P : list A -> Prop) :
  P [] -> (forall a, P [a]) ->
  (forall a b rest, P rest -> P (a :: b :: rest)) ->
  forall l, P l.
Proof.
  intros H0 H1 H2.
  fix IH 1.
  intros [| a [| b rest]]; [apply H0 | apply H1 | apply H2, IH].
Qed.

Lemma int16_of_bytes_range (lo hi : byte) : int16_range (int16_of_bytes lo hi).
Proof.
  unfold int16_range, int16_of_bytes.
  pose proof (Byte.to_N_bounded lo). pose proof (Byte.to_N_bounded hi).
  destruct (Z.ltb_spec (Z.of_N (Byte.to_N lo) + 256 * Z.of_N (Byte.to_N hi)) 32768); lia.
Qed.

(** The view raises exactly on an odd byte length; else it has one element
    per pair of bytes, each in the range of a signed 16-bit integer. *)
Lemma Int16Array_cases (data : list byte) :
  (Int16Array data = None /\ Nat.odd (List.length data) = true) \/
  (exists l, Int16Array data = Some l /\
             List.length data = (2 * List.length l)%nat /\
             Nat.odd (List.length data) = false /\
             Forall int16_range l).
Proof.
  induction data as [| a | a b rest IH] using list_ind2.
  - right. exists []. repeat split; constructor.
  - left. split; reflexivity.
  - cbn [Int16Array List.length].
    change (Nat.odd (S (S (List.length rest)))) with (Nat.odd (List.length rest)).
    destruct IH as [[-> Ho] | (l & -> & Hl & Ho & Hr)].
    + left. split; [reflexivity | exact Ho].
    + right. exists (int16_of_bytes a b :: l). repeat split.
      * cbn [List.length]. lia.
      * exact Ho.
      * constructor; [apply int16_of_bytes_range | exact Hr].
Qed.

Lemma map_nth_seq (A B : Type) (f : A -> B) (d : A) (l : list A) :
  map (fun i => f (nth (i * 1 + 0) l d)) (seq 0 (List.length l)) = map f l.
Proof.
  induction l as [| x l IH]; [reflexivity|].
  cbn [List.length]. rewrite <- cons_seq, <- seq_shift. cbn [map].
  rewrite map_map. f_equal. rewrite <- IH. apply map_ext. intros i.
  now rewrite !Nat.mul_1_r, !Nat.add_0_r.
Qed.

(** X3. At a sample rate that every audio context supports (8000 to 96000
    Hz, as the 24000 of the program), [decodeAudioData] on one channel
    raises exactly when the data is empty or has an odd number of bytes. *)
Theorem decodeAudioData_raises (data : list byte) (rate : positive) :
  (8000 <= Z.pos rate <= 96000)%Z ->
  decodeAudioData data rate 1 = None <->
  data = [] \/ Nat.odd (List.length data) = true.
Proof.
  intros _. unfold decodeAudioData.
  destruct (Int16Array_cases data) as [[-> Ho] | (l & -> & Hl & Ho & _)].
  - split; auto.
  - rewrite Nat.div_1_r. cbn [Nat.eqb orb]. rewrite orb_false_r.
    destruct l as [| z l].
    + cbn. destruct data; [tauto | discriminate].
    + cbn [List.length Nat.eqb]. split; [discriminate|].
      intros [-> | H]; [discriminate | congruence].
Qed.

Lemma decodeAudioData_raises_witness :
  decodeAudioData [x01; x00; x02]%byte 24000 1 = None.
Proof.
  apply (decodeAudioData_raises [x01; x00; x02]%byte 24000); [lia|]. right. reflexivity.
Defined.

(** X4. When [decodeAudioData] on one channel returns a buffer, at a sample
    rate that every audio context supports, the buffer has one frame per two
    bytes and at least one, the rate asked for, and a single channel holding
    the little-endian 16-bit samples over 32768, in order and all in
    [-1, 1). *)
Theorem decodeAudioData_buffer (data : list byte) (rate : positive) (buf : AudioBuffer) :
  (8000 <= Z.pos rate <= 96000)%Z ->
  decodeAudioData data rate 1 = Some buf ->
  (0 < frames buf)%nat /\
  List.length data = (2 * frames buf)%nat /\
  frames buf = (List.length data / 2)%nat /\
  sampleRate buf = rate /\
  exists samples,
    Int16Array data = Some samples /\
    channels buf = [map (fun z => z # 32768) samples] /\
    List.length samples = frames buf /\
    Forall (fun s => (-1 <= s)%Q /\ (s < 1)%Q) (map (fun z => z # 32768) samples).
Proof.
  intros _. unfold decodeAudioData.
  destruct (Int16Array_cases data) as [[-> _] | (l & -> & Hl & _ & Hr)];
    [discriminate|].
  rewrite Nat.div_1_r. cbn [Nat.eqb orb]. rewrite orb_false_r.
  destruct (Nat.eqb_spec (List.length l) 0) as [|Hn]; [discriminate|].
  intros E. injection E as <-. cbn [frames sampleRate channels].
  split; [lia|]. split; [exact Hl|]. split; [|split; [reflexivity|]].
  - rewrite Hl, Nat.mul_comm. now rewrite Nat.div_mul.
  - exists l. split; [reflexivity|]. split; [|split; [reflexivity|]].
    + cbn [seq map]. f_equal.
      apply (map_nth_seq Z Q (fun z => z # 32768) 0%Z l).
    + apply Forall_map. eapply Forall_impl; [|exact Hr].
      intros z [Hlo Hhi]. unfold Qle, Qlt. cbn [Qnum Qden]. lia.
Qed.

Lemma decodeAudioData_buffer_witness :
  exists buf, decodeAudioData [x00; x80; xff; x7f]%byte 24000 1 = Some buf /\
              channels buf = [[-32768 # 32768; 32767 # 32768]].
Proof.
  eexists. split; [reflexivity|].
  assert (R : (8000 <= Z.pos 24000 <= 96000)%Z) by lia.
  destruct (decodeAudioData_buffer [x00; x80; xff; x7f]%byte 24000 _ R eq_refl)
    as (_ & _ & _ & _ & samples & E & -> & _).
  injection E as <-. reflexivity.
Defined.

(** ** The capture path *)

Section CaptureFacts.
Import Capture.
Local Open Scope Z_scope.

Lemma to_N_byte_of_Z (z : Z) : 0 <= z < 256 -> Z.of_N (Byte.to_N (byte_of_Z z)) = z.
Proof.
  intros Hz. unfold byte_of_Z.
  pose proof (byte_of_ascii_via_N (ascii_of_N (Z.to_N z))) as E.
  symmetry in E. apply Byte.to_of_N in E. rewrite E.
  rewrite N_ascii_embedding by lia. lia.
Qed.

Lemma int16_bytes_read_back (z : Z) :
  int16_range z ->
  exists lo hi, int16_bytes z = [lo; hi] /\ int16_of_bytes lo hi = z.
Proof.
  unfold int16_range. intros Hz. unfold int16_bytes. cbv zeta.
  eexists. eexists. split; [reflexivity|].
  unfold int16_of_bytes.
  rewrite !to_N_byte_of_Z by lia.
  destruct (Z.ltb_spec (z mod 65536 mod 256 + 256 * (z mod 65536 / 256)) 32768); lia.
Qed.

Lemma ToInt16_range (x : Q) : int16_range (ToInt16 x).
Proof.
  unfold int16_range, ToInt16. cbv zeta.
  destruct (Z.geb_spec (Z.quot (Qnum x) (Z.pos (Qden x)) mod 65536) 32768); lia.
Qed.

Lemma samples16_range (l : list Q) : Forall int16_range (samples16 l).
Proof. unfold samples16. apply Forall_map, Forall_forall. intros. apply ToInt16_range. Qed.

Lemma Int16Array_flat (l : list Z) :
  Forall int16_range l -> Int16Array (flat_map int16_bytes l) = Some l.
Proof.
  induction 1 as [| z l Hz _ IH]; [reflexivity|].
  cbn [flat_map]. destruct (int16_bytes_read_back z Hz) as (lo & hi & -> & E).
  cbn [app Int16Array]. now rewrite IH, E.
Qed.

Lemma flat_int16_length (l : list Z) :
  List.length (flat_map int16_bytes l) = (2 * List.length l)%nat.
Proof. induction l as [| z l IH]; cbn [flat_map List.length app]; [reflexivity | cbn; lia]. Qed.

(** The scaled sample, truncated: within the 16-bit range when the sample
    is in [-1, 1). *)
Lemma scaled_truncation (f : Q) :
  (-1 <= f)%Q -> (f < 1)%Q ->
  let t := Z.quot (Qnum (f * 32768)%Q) (Z.pos (Qden (f * 32768)%Q)) in
  -32768 <= t < 32768 /\
  - Z.pos (Qden f) < t * Z.pos (Qden f) - 32768 * Qnum f < Z.pos (Qden f).
Proof.
  destruct f as [n d]. unfold Qle, Qlt. cbn [Qnum Qden Qmult]. intros Hlo Hhi.
  rewrite Pos.mul_1_r. cbv zeta.
  pose proof (Z.quot_rem' (n * 32768) (Z.pos d)) as E.
  assert (Hd : 0 < Z.pos d) by lia.
  destruct (Z.le_ge_cases 0 (n * 32768)) as [Hn | Hn].
  - pose proof (Z.rem_bound_pos (n * 32768) (Z.pos d) Hn Hd) as Hr.
    pose proof (Z.quot_pos (n * 32768) (Z.pos d) Hn Hd) as Hq.
    nia.
  - pose proof (Z.rem_bound_pos_neg (n * 32768) (Z.pos d) Hd Hn) as Hr.
    assert (Hq : Z.quot (n * 32768) (Z.pos d) <= 0).
    { pose proof (Z.quot_opp_l (n * 32768) (Z.pos d)) as Ho.
      pose proof (Z.quot_pos (- (n * 32768)) (Z.pos d)) as Hp. lia. }
    nia.
Qed.

(** The bytes sent read back as the 16-bit samples. *)
Lemma pcm_bytes_view (inputData : list Q) :
  Int16Array (pcm_bytes inputData) = Some (samples16 inputData) /\
  List.length (pcm_bytes inputData) = (2 * List.length inputData)%nat.
Proof.
  unfold pcm_bytes. split.
  - apply Int16Array_flat, samples16_range.
  - rewrite flat_int16_length. unfold samples16. now rewrite length_map.
Qed.

End CaptureFacts.

Lemma encode_then_decode (b : list byte) : decode (encode b) = Some b.
Proof.
  unfold decode. rewrite encode_as_btoa, atob_btoa.
  rewrite list_ascii_of_string_of_list_ascii, map_map.
  f_equal. rewrite <- (map_id b) at 2.
  apply map_ext. intros x. apply byte_of_ascii_of_byte.
Qed.

Lemma encode_truthy (b : list byte) : b <> [] -> truthy (encode b) = true.
Proof.
  intros Hb. rewrite encode_as_btoa. unfold Base64.btoa.
  rewrite list_ascii_of_string_of_list_ascii.
  destruct b as [| x [| y [| z rest]]]; [congruence | reflexivity ..].
Qed.

Section CaptureTheorems.
Import Capture.
Local Open Scope Q_scope.

(** X5. A captured sample in [-1, 1) becomes a 16-bit integer without
    wrap-around, and read back over 32768 it is less than one step of
    1/32768 away from the sample. *)
Theorem capture_quantization (f : Q) :
  -1 <= f -> f < 1 ->
  let v := ToInt16 (f * 32768) in
  int16_range v /\
  - (1 # 32768) < (v # 32768) - f /\ (v # 32768) - f < 1 # 32768.
Proof.
  intros Hlo Hhi. cbv zeta.
  destruct (scaled_truncation f Hlo Hhi) as [Ht He].
  split; [apply ToInt16_range|].
  unfold ToInt16. cbv zeta.
  set (t := Z.quot (Qnum (f * 32768)) (Z.pos (Qden (f * 32768)))) in *.
  assert (Hv : (if (t mod 65536 >=? 32768)%Z then (t mod 65536 - 65536)%Z
                else (t mod 65536)%Z) = t).
  { destruct (Z.geb_spec (t mod 65536) 32768); lia. }
  rewrite Hv. clearbody t. destruct f as [n d].
  cbn [Qnum Qden] in He. unfold Qlt, Qminus, Qplus, Qopp. cbn [Qnum Qden].
  rewrite !Pos2Z.inj_mul. split; nia.
Qed.

Lemma capture_quantization_witness :
  let v := ToInt16 ((-1 # 2) * 32768) in
  v = (-16384)%Z /\ int16_range v.
Proof.
  split; [reflexivity|].
  apply (capture_quantization (-1 # 2)); [discriminate | reflexivity].
Defined.

(** X6. The capture path does not clamp: a sample in [1, 2) wraps to a
    negative 16-bit integer, within one step of the sample minus 2. *)
Theorem capture_overdrive_wraps (f : Q) :
  1 <= f -> f < 2 ->
  let v := ToInt16 (f * 32768) in
  (v < 0)%Z /\
  - (1 # 32768) < (v # 32768) - (f - 2) /\ (v # 32768) - (f - 2) < 1 # 32768.
Proof.
  intros Hlo Hhi. cbv zeta. unfold ToInt16. cbv zeta.
  destruct f as [n d]. unfold Qle, Qlt in Hlo, Hhi. cbn [Qnum Qden Qmult] in *.
  rewrite Pos.mul_1_r.
  assert (Hd : (0 < Z.pos d)%Z) by lia.
  assert (Hn : (0 <= n * 32768)%Z) by lia.
  pose proof (Z.quot_rem' (n * 32768) (Z.pos d)) as E.
  pose proof (Z.rem_bound_pos (n * 32768) (Z.pos d) Hn Hd) as Hr.
  set (t := Z.quot (n * 32768) (Z.pos d)) in *.
  assert (Ht : (32768 <= t < 65536)%Z) by nia.
  assert (Hv : (if (t mod 65536 >=? 32768)%Z then (t mod 65536 - 65536)%Z
                else (t mod 65536)%Z) = (t - 65536)%Z).
  { destruct (Z.geb_spec (t mod 65536) 32768); lia. }
  rewrite Hv. split; [lia|].
  unfold Qlt, Qminus, Qplus, Qopp. cbn [Qnum Qden].
  rewrite !Pos2Z.inj_mul. split; nia.
Qed.

Lemma capture_overdrive_wraps_witness : ToInt16 (1 * 32768) = (-32768)%Z.
Proof.
  destruct (capture_overdrive_wraps 1) as (_ & _ & _); [discriminate | reflexivity |].
  reflexivity.
Defined.

(** X7. While [sessionRef] holds a session, [onaudioprocess] sends one
    media blob for a block, of type [audio/pcm;rate=16000], whose text
    [decode]s to two bytes per sample that read back as the 16-bit samples
    of the block.  After [stopConversation] a block is dropped: the world
    is unchanged. *)
Theorem capture_frame_on_wire (inputData : list Q) (w : LiveChat.World)
  (session : Session) :
  LiveChat.sessionRef w = Some session ->
  (exists text,
      LiveChat.effects_since w (audioprocess inputData w)
      = [SendRealtimeInput session
           {| data := Some text; mimeType := Some "audio/pcm;rate=16000"%string |}] /\
      match decode text with
      | Some bytes =>
          List.length bytes = (2 * List.length inputData)%nat /\
          Int16Array bytes = Some (samples16 inputData)
      | None => False
      end) /\
  audioprocess inputData (LiveChat.stopConversation w) = LiveChat.stopConversation w.
Proof.
  intros Hs. split.
  - exists (encode (pcm_bytes inputData)). split.
    + apply effects_since_app. unfold audioprocess, LiveChat.onaudioprocess.
      rewrite Hs. reflexivity.
    + rewrite encode_then_decode.
      destruct (pcm_bytes_view inputData) as [Hv Hl]. now split.
  - unfold audioprocess, LiveChat.onaudioprocess.
    destruct w as [? ? ? ? [s|] [m|] [[| |]|] [p|] t]; reflexivity.
Qed.

Lemma capture_frame_on_wire_witness :
  LiveChat.effects_since active_conversation
    (audioprocess [1 # 2; -1 # 2] active_conversation)
  = [SendRealtimeInput 1%nat
       {| data := Some "AEAAwA=="%string;
          mimeType := Some "audio/pcm;rate=16000"%string |}].
Proof.
  destruct (capture_frame_on_wire [1 # 2; -1 # 2] active_conversation 1%nat eq_refl)
    as [(text & E & _) _].
  reflexivity.
Defined.

End CaptureTheorems.

(** ** More on the conversation *)

Section ConversationFacts.
Import LiveChat.

(** X8. A message whose payload is the [encode] of a non-empty PCM array
    of even length is always played: the handler returns, starts the
    decoded buffer at the maximum of cursor and clock, and moves the cursor
    by the duration of the buffer, which is the number of the frames (two
    bytes each) divided by 24000. *)
Theorem encoded_chunk_is_played (pcm : list byte) (c : Conversation) (now : double)
  (w : World) :
  pcm <> [] -> Nat.odd (List.length pcm) = false ->
  let r := onmessage c now (audio_chunk (encode pcm)) w in
  snd r = Returned /\
  exists buf,
    decodeAudioData pcm 24000 1 = Some buf /\
    scheduled (effects_since w (snd (fst r)))
    = [(Math_max (nextStartTime c) now, buf)] /\
    duration buf
    = ddiv (double_of_Z (Z.of_nat (List.length pcm / 2))) (double_of_Z 24000) /\
    nextStartTime (fst (fst r)) = dadd (Math_max (nextStartTime c) now) (duration buf).
Proof.
  intros Hne Hev. cbv zeta.
  assert (Hp : payload_buffer (encode pcm) = decodeAudioData pcm 24000 1).
  { unfold payload_buffer. now rewrite encode_then_decode. }
  assert (Hd : exists buf,
             decodeAudioData pcm 24000 1 = Some buf /\
             duration buf
             = ddiv (double_of_Z (Z.of_nat (List.length pcm / 2))) (double_of_Z 24000)).
  { unfold decodeAudioData.
    destruct (Int16Array_cases pcm) as [[_ Ho] | (l & -> & Hl & _ & _)]; [congruence|].
    rewrite Nat.div_1_r. cbn [Nat.eqb orb]. rewrite orb_false_r.
    destruct (Nat.eqb_spec (List.length l) 0) as [E | _].
    - destruct pcm; [congruence | cbn in Hl; lia].
    - eexists. split; [reflexivity|].
      unfold duration. cbn [frames sampleRate].
      rewrite Hl, Nat.mul_comm. now rewrite Nat.div_mul. }
  destruct Hd as (buf & Hbuf & Hdur).
  destruct (onmessage_cases c now (audio_chunk (encode pcm)) w)
    as (w1 & Htr & _ & _ & _ & E).
  rewrite E. cbn [base64Audio audio_chunk serverContent modelTurn parts inlineData data].
  rewrite (encode_truthy pcm Hne), Hp, Hbuf. cbn [fst snd nextStartTime].
  split; [reflexivity|]. exists buf. repeat split; try assumption.
  rewrite (effects_since_app w _ [SourceStart (Math_max (nextStartTime c) now) buf]);
    [reflexivity | cbn; now rewrite Htr].
Qed.

Lemma encoded_chunk_is_played_witness :
  snd (onmessage first_conversation dzero (audio_chunk (encode [x01; x00; xff; x7f]%byte))
         active_conversation) = Returned.
Proof.
  apply (encoded_chunk_is_played [x01; x00; xff; x7f]%byte first_conversation dzero
           active_conversation); [discriminate | reflexivity].
Defined.

(** A message leaves the flags and the refs as they are, and the only effect
    it can have is the start of a buffer. *)
Lemma onmessage_frame (c : Conversation) (now : double) (m : LiveServerMessage)
  (w : World) :
  let w' := snd (fst (onmessage c now m w)) in
  isActive w' = isActive w /\ isConnecting w' = isConnecting w /\
  sessionRef w' = sessionRef w /\ streamRef w' = streamRef w /\
  audioContextRef w' = audioContextRef w /\
  scriptProcessorRef w' = scriptProcessorRef w /\
  exists new, trace w' = trace w ++ new /\ Forall is_source_start new.
Proof.
  cbv zeta. unfold onmessage.
  destruct m as [[[[i|] [o|] [|] mt]|]];
    cbv zeta; cbn [serverContent inputTranscription outputTranscription turnComplete];
    (destruct (base64Audio _) as [b|];
     [destruct (truthy b);
      [destruct (decode b) as [bytes|];
       [destruct (decodeAudioData bytes 24000 1) as [buf|]|]|]|]);
    cbn [fst snd];
    repeat split;
    try (exists []; rewrite app_nil_r; split; [reflexivity | constructor]);
    try (eexists; split; [reflexivity | repeat constructor]).
Qed.

(** X9. Whatever messages are delivered, the handler touches neither the
    flags nor the four refs, and the only effects it makes are starts of
    buffers: it never acquires, releases or sends. *)
Theorem deliver_keeps_resources (ms : list (double * LiveServerMessage))
  (c : Conversation) (w : World) :
  let w' := snd (deliver c w ms) in
  isActive w' = isActive w /\ isConnecting w' = isConnecting w /\
  sessionRef w' = sessionRef w /\ streamRef w' = streamRef w /\
  audioContextRef w' = audioContextRef w /\
  scriptProcessorRef w' = scriptProcessorRef w /\
  Forall is_source_start (effects_since w w').
Proof.
  cbv zeta.
  assert (H : isActive (snd (deliver c w ms)) = isActive w /\
              isConnecting (snd (deliver c w ms)) = isConnecting w /\
              sessionRef (snd (deliver c w ms)) = sessionRef w /\
              streamRef (snd (deliver c w ms)) = streamRef w /\
              audioContextRef (snd (deliver c w ms)) = audioContextRef w /\
              scriptProcessorRef (snd (deliver c w ms)) = scriptProcessorRef w /\
              exists new, trace (snd (deliver c w ms)) = trace w ++ new /\
                          Forall is_source_start new).
  { revert c w. induction ms as [| [now m] ms IH]; intros c w.
    - repeat split. exists []. rewrite app_nil_r. split; [reflexivity | constructor].
    - rewrite deliver_cons.
      destruct (onmessage_frame c now m w)
        as (A1 & A2 & A3 & A4 & A5 & A6 & new1 & T1 & F1).
      destruct (IH (fst (fst (onmessage c now m w))) (snd (fst (onmessage c now m w))))
        as (B1 & B2 & B3 & B4 & B5 & B6 & new2 & T2 & F2).
      repeat split; try congruence.
      exists (new1 ++ new2). split.
      + now rewrite T2, T1, app_assoc.
      + apply Forall_app. now split. }
  destruct H as (H1 & H2 & H3 & H4 & H5 & H6 & new & T & F).
  repeat split; try assumption.
  now rewrite (effects_since_app _ _ _ T).
Qed.

(** X10. From an idle state, a start, the opened callback with the
    microphone granted and a stop pass through connecting (with the log and
    the interim buffer cleared), active and idle again; the refs end
    released, and the effects are the three acquisitions followed by their
    four releases in the order of [stopConversation]. *)
Theorem conversation_cycle (w : World) (session : Session) (stream : MediaStream) :
  isActive w = false -> isConnecting w = false ->
  let started := startConversation (render w) (Connects session) w in
  let w1 := snd started in
  let w2 := fst (onopen (Some stream) w1) in
  let w3 := stopConversation w2 in
  let node := {| bufferSize := 4096; source := stream |} in
  fst started = Some {| scope := render w; nextStartTime := dzero |} /\
  (isConnecting w1 = true /\ isActive w1 = false /\
   transcription w1 = [] /\ currentInterim w1 = empty_turn) /\
  (isConnecting w2 = false /\ isActive w2 = true) /\
  (isConnecting w3 = false /\ isActive w3 = false /\
   sessionRef w3 = None /\ streamRef w3 = None /\ scriptProcessorRef w3 = None /\
   audioContextRef w3 = Some closed) /\
  effects_since w w3
  = [LiveConnect session; GetUserMedia; CaptureWired node;
     SessionClose session; TracksStop stream; ProcessorDisconnect node; ContextClose].
Proof.
  intros Ha Hc. cbv zeta.
  unfold startConversation, render. cbn [r_isActive r_isConnecting].
  rewrite Ha, Hc. cbn [orb fst snd].
  repeat split;
    [.. | apply effects_since_app; cbn; now rewrite <- !app_assoc];
    cbn; assumption || reflexivity.
Qed.

Lemma conversation_cycle_witness :
  isActive (stopConversation active_conversation) = false /\
  sessionRef (stopConversation active_conversation) = None.
Proof.
  destruct (conversation_cycle initial 1%nat 7%nat eq_refl eq_refl)
    as (_ & _ & _ & (_ & H1 & H2 & _) & _).
  split; [exact H1 | exact H2].
Defined.

End ConversationFacts.


(** ** Repeated stops *)

(** X20. A stop releases once.  In LiveChat, [n + 1] calls in a row leave
    the world (state, refs and effects made) exactly as one call does,
    whatever the world was, the initial one included.  In the
    Transcriber, after one call any further calls, by the closures of any
    renders, release nothing and leave the effects, the four refs, the
    recording flag and the interim text as the first call left them; they
    change nothing at all when their closures have captured no interim
    text, as the cleanup of the unmount has.  In both components the one
    teardown is the sequence: close of the session, stop of the tracks,
    disconnect of the capture node, close of the audio context, each present
    exactly when its ref holds the resource (the context: when it is not
    closed already), so nothing is released twice. *)
Theorem stop_releases_once (n : nat) (w : LiveChat.World) (t : Transcriber.World)
  (r1 : Transcriber.Render) (rs : list Transcriber.Render) :
  Nat.iter (S n) LiveChat.stopConversation w = LiveChat.stopConversation w /\
  LiveChat.trace (LiveChat.stopConversation w)
  = LiveChat.trace w
      ++ match LiveChat.sessionRef w with Some s => [SessionClose s] | None => [] end
      ++ match LiveChat.streamRef w with Some m => [TracksStop m] | None => [] end
      ++ match LiveChat.scriptProcessorRef w with
         | Some p => [ProcessorDisconnect p] | None => [] end
      ++ match LiveChat.audioContextRef w with
         | Some closed | None => [] | Some _ => [ContextClose] end /\
  Transcriber.trace (Transcriber.stopTranscription r1 t)
  = Transcriber.trace t
      ++ match Transcriber.sessionRef t with Some s => [SessionClose s] | None => [] end
      ++ match Transcriber.streamRef t with Some m => [TracksStop m] | None => [] end
      ++ match Transcriber.scriptProcessorRef t with
         | Some p => [ProcessorDisconnect p] | None => [] end
      ++ match Transcriber.audioContextRef t with
         | Some closed | None => [] | Some _ => [ContextClose] end /\
  (let t1 := Transcriber.stopTranscription r1 t in
   let tn := Transcriber.stops rs t1 in
   Transcriber.trace tn = Transcriber.trace t1 /\
   Transcriber.sessionRef tn = Transcriber.sessionRef t1 /\
   Transcriber.streamRef tn = Transcriber.streamRef t1 /\
   Transcriber.scriptProcessorRef tn = Transcriber.scriptProcessorRef t1 /\
   Transcriber.audioContextRef tn = Transcriber.audioContextRef t1 /\
   Transcriber.isRecording tn = Transcriber.isRecording t1 /\
   Transcriber.transcription tn = Transcriber.transcription t1 /\
   (Forall (fun r => Transcriber.r_transcription r = ""%string) rs -> tn = t1)) /\
  Transcriber.unmount (Transcriber.stopTranscription r1 t)
  = Transcriber.stopTranscription r1 t.
Proof.
  split; [|split; [|split; [|split]]].
  - apply iter_idempotent, stopConversation_twice.
  - apply stopConversation_trace.
  - apply stopTranscription_trace.
  - apply stops_after_stop.
  - unfold Transcriber.unmount.
    now apply (stopTranscription_twice r1 (Transcriber.render Transcriber.initial) t).
Qed.

Lemma stop_releases_once_witness :
  let stop := Transcriber.stopTranscription (Transcriber.render Transcriber.initial) in
  Transcriber.trace (stop active_transcription)
  = Transcriber.trace active_transcription
      ++ [SessionClose 1%nat; TracksStop 7%nat;
          ProcessorDisconnect {| bufferSize := 4096; source := 7%nat |}; ContextClose] /\
  stop (stop (stop active_transcription)) = stop active_transcription.
Proof.
  cbv zeta.
  destruct (stop_releases_once 0 LiveChat.initial active_transcription
              (Transcriber.render Transcriber.initial)
              [Transcriber.render Transcriber.initial;
               Transcriber.render Transcriber.initial])
    as (_ & _ & T & (_ & _ & _ & _ & _ & _ & _ & E) & _).
  split; [exact T|].
  apply E. repeat constructor.
Defined.

(** ** The Transcriber *)

Lemma transcriber_onmessage_open (r : Transcriber.Render) (m : LiveServerMessage)
  (w : Transcriber.World) :
  turn_open m = true ->
  Transcriber.onmessage r m w
  = Transcriber.setTranscription (fun prev => (prev ++ heard m)%string) w.
Proof.
  unfold turn_open, heard, Transcriber.onmessage.
  destruct m as [[[[t|] o tc mt]|]]; cbn [serverContent inputTranscription turnComplete].
  - destruct tc; [discriminate|]. intros _. reflexivity.
  - destruct tc; [discriminate|]. intros _.
    unfold Transcriber.setTranscription. rewrite append_empty. now destruct w.
  - intros _. unfold Transcriber.setTranscription. rewrite append_empty. now destruct w.
Qed.

Lemma transcriber_deliver_open (r : Transcriber.Render) (ms : list LiveServerMessage)
  (w : Transcriber.World) :
  forallb turn_open ms = true ->
  transcriber_deliver r w ms
  = Transcriber.setTranscription
      (fun prev => (prev ++ fold_right append EmptyString (map heard ms))%string) w.
Proof.
  revert w. induction ms as [| m ms IH]; intros w; cbn [forallb].
  - intros _. cbn. unfold Transcriber.setTranscription. rewrite append_empty.
    now destruct w.
  - intros H. apply andb_true_iff in H as [Hm Hms].
    unfold transcriber_deliver in *. cbn [fold_left map fold_right].
    rewrite (transcriber_onmessage_open r m w Hm), (IH _ Hms).
    unfold Transcriber.setTranscription. cbn. now rewrite append_assoc.
Qed.

(** X12. In the Transcriber, over messages that do not complete a turn the
    interim text grows by what each message says and the finalized text is
    untouched; a stop from the button then empties the interim text and
    loses nothing of what the page showed. *)
Theorem transcriber_stop_keeps_heard_text (r : Transcriber.Render)
  (ms : list LiveServerMessage) (w : Transcriber.World) :
  forallb turn_open ms = true ->
  let w' := transcriber_deliver r w ms in
  let said := fold_right append EmptyString (map heard ms) in
  Transcriber.transcription w' = (Transcriber.transcription w ++ said)%string /\
  Transcriber.finalizedTranscription w' = Transcriber.finalizedTranscription w /\
  Transcriber.transcription (Transcriber.click_stop w') = EmptyString /\
  transcriber_shown (Transcriber.click_stop w') = (transcriber_shown w ++ said)%string.
Proof.
  intros H. cbv zeta. rewrite (transcriber_deliver_open r ms w H).
  unfold transcriber_shown.
  destruct w as [? tr fin [s|] [m|] [[| |]|] [p|] t]; cbn;
    rewrite ?append_empty, ?append_assoc; repeat split; reflexivity.
Qed.

Lemma transcriber_stop_keeps_heard_text_witness :
  transcriber_shown
    (Transcriber.click_stop
       (transcriber_deliver (Transcriber.render Transcriber.initial) Transcriber.initial
          [partial_input "Hel"; partial_input "lo"]))
  = "Hello"%string.
Proof.
  destruct (transcriber_stop_keeps_heard_text (Transcriber.render Transcriber.initial)
              [partial_input "Hel"; partial_input "lo"] Transcriber.initial eq_refl)
    as (_ & _ & _ & E).
  rewrite E. reflexivity.
Defined.

(** X13. In the Transcriber a remote close only clears the recording flag:
    nothing is released.  The button then starts a new session; once it has
    opened, the refs hold the new stream, node and context, and the stop
    from the button releases these and the new session only.  The
    microphone stream of the closed session is never stopped, by this stop
    or by any later one. *)
Theorem transcriber_remote_close_keeps_resources (w : Transcriber.World)
  (s1 s2 : Session) (m1 m2 : MediaStream) (r : Transcriber.Render) :
  Transcriber.isRecording w = true ->
  Transcriber.sessionRef w = Some s1 -> Transcriber.streamRef w = Some m1 ->
  let w1 := Transcriber.onclose w in
  let w2 := Transcriber.click (Connects s2) w1 in
  let w3 := fst (Transcriber.onopen (Some m2) w2) in
  let w4 := Transcriber.click (Connects s2) w3 in
  let node2 := {| bufferSize := 4096; source := m2 |} in
  let new := [LiveConnect s2; GetUserMedia; CaptureWired node2;
              SessionClose s2; TracksStop m2; ProcessorDisconnect node2; ContextClose] in
  Transcriber.trace w1 = Transcriber.trace w /\
  Transcriber.streamRef w2 = Some m1 /\
  Transcriber.trace w4 = Transcriber.trace w ++ new /\
  (m1 <> m2 -> ~ In (TracksStop m1) new) /\
  Transcriber.trace (Transcriber.stopTranscription r w4) = Transcriber.trace w4.
Proof.
  intros Hrec Hs Hm. cbv zeta.
  destruct w as [rec tr fin se st ac sp t].
  cbn [Transcriber.isRecording Transcriber.sessionRef Transcriber.streamRef] in *.
  subst rec se st.
  split; [reflexivity|]. split; [reflexivity|]. split; [|split].
  - cbn. now rewrite <- !app_assoc.
  - intros Hne [H | [H | [H | [H | [H | [H | [H | []]]]]]]]; try discriminate H.
    injection H as H. now apply Hne.
  - reflexivity.
Qed.

Lemma transcriber_remote_close_keeps_resources_witness :
  let w4 :=
    Transcriber.click (Connects 2%nat)
      (fst (Transcriber.onopen (Some 8%nat)
              (Transcriber.click (Connects 2%nat)
                 (Transcriber.onclose active_transcription)))) in
  ~ In (TracksStop 7%nat)
      (skipn (List.length (Transcriber.trace active_transcription))
         (Transcriber.trace w4)).
Proof.
  cbv zeta.
  pose proof (transcriber_remote_close_keeps_resources active_transcription
                1%nat 2%nat 7%nat 8%nat (Transcriber.render Transcriber.initial)
                eq_refl eq_refl eq_refl) as H.
  cbv zeta in H. unfold MediaStream in H. destruct H as (_ & _ & T & N & _).
  rewrite T, skipn_past. apply N. discriminate.
Defined.

(** ** Login *)

Lemma own_string_In (o : list (string * string)) (k v : string) :
  LoginPage.own_string o k = Some v -> In (k, v) o.
Proof.
  induction o as [| [k' v'] o IH]; cbn [LoginPage.own_string]; [discriminate|].
  destruct (String.eqb_spec k' k) as [-> | _].
  - intros E. injection E as ->. now left.
  - intros E. right. now apply IH.
Qed.

(** X14. [handleSubmit] calls [onLogin], with the user name typed, exactly
    when the name and the password typed are a pair of [validUsers]. *)
Theorem login_accepts_exactly_the_table (w : LoginPage.World) (u : string) :
  snd (LoginPage.handleSubmit w) = Some u <->
  u = LoginPage.username w /\
  In (LoginPage.username w, LoginPage.password w) LoginPage.validUsers.
Proof.
  unfold LoginPage.handleSubmit. split.
  - destruct (negb (truthy (trim (LoginPage.username w)))); [discriminate|].
    destruct (LoginPage.own_string LoginPage.validUsers (LoginPage.username w))
      as [v|] eqn:E; [|discriminate].
    destruct (String.eqb_spec v (LoginPage.password w)) as [<- | _]; [|discriminate].
    cbn [snd]. intros H. injection H as <-. split; [reflexivity|].
    now apply own_string_In.
  - intros [-> Hin]. destruct w as [name pw err]. cbn [LoginPage.username LoginPage.password] in *.
    unfold LoginPage.validUsers in Hin. cbn [In] in Hin.
    destruct Hin as [E | [E | [E | []]]]; injection E as <- <-; reflexivity.
Qed.

Lemma login_accepts_exactly_the_table_witness :
  snd (LoginPage.handleSubmit
         {| LoginPage.username := "student"; LoginPage.password := "pass123";
            LoginPage.error := "" |}) = Some "student"%string /\
  snd (LoginPage.handleSubmit
         {| LoginPage.username := "student"; LoginPage.password := "admin";
            LoginPage.error := "" |}) = None.
Proof.
  split; [|reflexivity].
  apply (login_accepts_exactly_the_table
           {| LoginPage.username := "student"; LoginPage.password := "pass123";
              LoginPage.error := "" |} "student").
  split; [reflexivity | cbn; auto].
Defined.

(** ** The application shell *)

Lemma history_key_injective (u v : string) :
  Chat.CHAT_HISTORY_KEY u = Chat.CHAT_HISTORY_KEY v -> u = v.
Proof. unfold Chat.CHAT_HISTORY_KEY. cbn [append]. intros E. now inversion E. Qed.



(** X16. A confirmed logout of user [u] clears the current user and its
    session entry and removes the chat history saved under the key of [u];
    the history of every other user, under the key the chat saves it with,
    stays.  A logout that is not confirmed changes nothing. *)
Theorem logout_removes_own_history_only (w : App.World) (u : string) :
  App.currentUser w = Some u -> truthy u = true ->
  let w' := App.handleLogout true w in
  App.currentUser w' = None /\
  Storage.getItem (App.sessionStorage w') "chatgps-currentUser" = None /\
  Storage.getItem (App.localStorage w') (Chat.CHAT_HISTORY_KEY u) = None /\
  (forall other,
      other <> u ->
      Storage.getItem (App.localStorage w') (Chat.CHAT_HISTORY_KEY other)
      = Storage.getItem (App.localStorage w) (Chat.CHAT_HISTORY_KEY other)) /\
  (forall other json,
      other <> u ->
      Storage.getItem
        (App.localStorage
           (App.handleLogout true
              {| App.activeFeature := App.activeFeature w;
                 App.currentUser := Some u;
                 App.isSidebarOpen := App.isSidebarOpen w;
                 App.sessionStorage := App.sessionStorage w;
                 App.localStorage := Chat.saveHistory other json (App.localStorage w) |}))
        (Chat.CHAT_HISTORY_KEY other) = Some json) /\
  App.handleLogout false w = w.
Proof.
  intros Hu Ht. cbv zeta. unfold App.handleLogout, Storage.getItem, Storage.removeItem,
    Chat.saveHistory, Storage.setItem.
  cbn [App.currentUser App.sessionStorage App.localStorage].
  rewrite Hu, Ht.
  change ("chatgps-chat-history-" ++ u)%string with (Chat.CHAT_HISTORY_KEY u).
  rewrite !String.eqb_refl. repeat split.
  - intros other Hne.
    destruct (String.eqb_spec (Chat.CHAT_HISTORY_KEY other) (Chat.CHAT_HISTORY_KEY u))
      as [E | _]; [|reflexivity].
    now apply history_key_injective in E.
  - intros other json Hne.
    destruct (String.eqb_spec (Chat.CHAT_HISTORY_KEY other) (Chat.CHAT_HISTORY_KEY u))
      as [E | _]; [now apply history_key_injective in E|].
    now rewrite String.eqb_refl.
Qed.

Lemma logout_removes_own_history_only_witness :
  let w := App.handleLogin "student"
             (App.mount Storage.empty (Chat.saveHistory "student" "[]" Storage.empty)) in
  Storage.getItem (App.localStorage w) (Chat.CHAT_HISTORY_KEY "student") = Some "[]"%string /\
  Storage.getItem (App.localStorage (App.handleLogout true w))
    (Chat.CHAT_HISTORY_KEY "student") = None.
Proof.
  split; [reflexivity|].
  apply (logout_removes_own_history_only
           (App.handleLogin "student"
              (App.mount Storage.empty (Chat.saveHistory "student" "[]" Storage.empty)))
           "student"); reflexivity.
Defined.

(** ** The text chat *)

Lemma takes_turns_snoc (l : list Chat.ChatMessage) (q a : Chat.ChatMessage) :
  Chat.role q = Chat.user -> Chat.role a = Chat.model ->
  Chat.takes_turns l = true -> Chat.takes_turns (l ++ [q; a]) = true.
Proof.
  intros Hq Ha. induction l as [| x | x y rest IH] using list_ind2.
  - intros _. cbn. now rewrite Hq, Ha.
  - discriminate.
  - cbn [app Chat.takes_turns].
    destruct (Chat.role x); [|discriminate]. destruct (Chat.role y); [discriminate|].
    exact IH.
Qed.

(** X17. A submit with a non-blank input while no reply is pending sends
    one request, with the messages before as history, and when the reply or
    the failure arrives the log has grown by the user message and one model
    message (the reply, or the apology on failure); loading is over, the
    input is empty, and a log in which user and model took turns is still
    one.  While the reply is pending another submit is ignored. *)
Theorem chat_send_appends_exchange (w : Chat.World) (response : option string) :
  truthy (trim (Chat.input w)) = true -> Chat.isLoading w = false ->
  let w' := snd (Chat.send response w) in
  fst (Chat.send response w)
  = Some (Chat.generateText (Chat.promptForAI w) (Chat.messages w) (Chat.useLiteModel w)) /\
  (exists reply,
      Chat.messages w'
      = Chat.messages w
          ++ [{| Chat.role := Chat.user; Chat.parts := [Chat.input w] |};
              {| Chat.role := Chat.model; Chat.parts := [reply] |}] /\
      reply = match response with
              | Some text => text
              | None => "Sorry, I encountered an error. Please try again."%string
              end) /\
  Chat.isLoading w' = false /\ Chat.input w' = EmptyString /\
  (Chat.takes_turns (Chat.messages w) = true ->
   Chat.takes_turns (Chat.messages w') = true) /\
  (let pending := snd (Chat.handleSend_request w w) in
   Chat.handleSend_request pending pending = (None, pending)).
Proof.
  intros Hin Hl. cbv zeta. unfold Chat.send, Chat.handleSend_request.
  rewrite Hin, Hl. cbn [negb orb fst snd].
  split; [reflexivity|]. split.
  - eexists. split; [|reflexivity].
    unfold Chat.handleSend_response. cbn [Chat.messages].
    rewrite <- app_assoc. now destruct response.
  - repeat split. intros Ht.
    unfold Chat.handleSend_response. cbn [Chat.messages].
    rewrite <- app_assoc. cbn [app].
    apply takes_turns_snoc; [reflexivity | now destruct response | exact Ht].
Qed.

Lemma chat_send_appends_exchange_witness :
  let w := {| Chat.messages := []; Chat.input := "What is 2+2?"; Chat.isLoading := false;
              Chat.useLiteModel := false; Chat.subject := "General";
              Chat.problemType := "General Question" |} in
  Chat.isLoading (snd (Chat.send (Some "4"%string) w)) = false.
Proof.
  apply (chat_send_appends_exchange
           {| Chat.messages := []; Chat.input := "What is 2+2?"; Chat.isLoading := false;
              Chat.useLiteModel := false; Chat.subject := "General";
              Chat.problemType := "General Question" |} (Some "4"%string));
    reflexivity.
Defined.

(** ** File to base64 *)

Section DataUrl.
Import MediaAnalyzer.

Lemma split_comma_plain (l : list ascii) : no_comma l -> split_comma l = [l].
Proof.
  induction 1 as [| c l Hc _ IH]; [reflexivity|].
  cbn [split_comma]. now rewrite Hc, IH.
Qed.

Lemma split_comma_header (h p : list ascii) :
  no_comma h -> split_comma (h ++ ","%char :: p) = h :: split_comma p.
Proof.
  induction 1 as [| c h Hc _ IH]; [reflexivity|].
  cbn [app split_comma]. now rewrite Hc, IH.
Qed.

Lemma list_of_append (a b : string) :
  list_ascii_of_string (a ++ b) = list_ascii_of_string a ++ list_ascii_of_string b.
Proof. induction a as [| c a IH]; cbn; congruence. Qed.

Lemma btoa_no_comma (s : list ascii) : no_comma (Base64.btoa_chars s).
Proof.
  eapply Forall_impl; [|apply btoa_chars_alphabet].
  intros c [H | ->]; [|reflexivity].
  destruct (Ascii.eqb_spec c ","%char) as [-> | _]; [|reflexivity].
  exfalso. apply H. reflexivity.
Qed.

(** X19. For a file type without a comma, [fileToBase64] of the data URL
    of a file is the base64 text of its content, and [atob] reads the
    content back from it. *)
Theorem fileToBase64_payload (type content : string) :
  no_comma (list_ascii_of_string type) ->
  fileToBase64 (readAsDataURL type content) = Some (Base64.btoa content) /\
  match fileToBase64 (readAsDataURL type content) with
  | Some text => Base64.atob text = Some content
  | None => False
  end.
Proof.
  intros Hty.
  assert (E : fileToBase64 (readAsDataURL type content) = Some (Base64.btoa content)).
  { assert (L : list_ascii_of_string (readAsDataURL type content)
                = (list_ascii_of_string "data:" ++ list_ascii_of_string type
                   ++ list_ascii_of_string ";base64")
                  ++ ","%char :: list_ascii_of_string (Base64.btoa content)).
    { unfold readAsDataURL. rewrite !list_of_append, <- !app_assoc. reflexivity. }
    unfold fileToBase64. rewrite L, split_comma_header.
    - unfold Base64.btoa at 1. rewrite list_ascii_of_string_of_list_ascii.
      rewrite (split_comma_plain _ (btoa_no_comma _)). cbn [nth_error].
      reflexivity.
    - apply Forall_app. split; [repeat constructor|].
      apply Forall_app. split; [exact Hty | repeat constructor]. }
  rewrite E. split; [reflexivity | apply atob_btoa].
Qed.

Lemma fileToBase64_payload_witness :
  fileToBase64 (readAsDataURL "image/png" "Man") = Some "TWFu"%string.
Proof.
  apply (fileToBase64_payload "image/png" "Man"). repeat constructor.
Defined.

End DataUrl.
